(** * data_prep.py: the feature-preparation script, as a shallow embedding

    The script assembles one table from five CSV sources (loading with
    [set_index(verify_integrity=True)], latest-record selection, left joins),
    cleans the numeric columns, and encodes the categorical ones.  Each
    definition below follows the statement of [src/data_prep.py] it is named
    after; the pandas calls are modelled by what they do to the values the
    script passes them. *)

From Stdlib Require Import List Bool Arith ZArith QArith Lia.
From Stdlib Require Import Ascii String Permutation Sorting.Sorted.
From Stdlib Require Qcanon.
Import ListNotations.

Local Close Scope Q_scope.
Local Open Scope string_scope.
Local Open Scope list_scope.

(* ================================================================== *)
(** * Values and errors *)

(** A number held in a cell.  Finite numbers are exact rationals kept in
    lowest terms ([Qred]), so that structural equality is numeric equality;
    the rounding of a decimal literal to the nearest double is not modelled. *)
Inductive number : Type :=
  | Fin (q : Q)
  | Inf (negative : bool).

(** A cell of a DataFrame of dtype object: the float [nan] that [read_csv]
    and [replace] put in for a missing field, Python's [None] (what
    [clean_string] returns), a [str], or a number. *)
Inductive value : Type :=
  | NaN
  | PyNone
  | Str (s : string)
  | Num (x : number).

(** [pd.isnull]. *)
Definition isnull (v : value) : bool :=
  match v with
  | NaN | PyNone => true
  | _ => false
  end.

(** The exceptions the script can die of.  Nothing in the script catches an
    exception except [clean_string], so a raised error ends the run. *)
Inductive error : Type :=
  | ValueError
  | KeyError.

Definition result (A : Type) : Type := (error + A)%type.

Definition Ok {A : Type} (a : A) : result A := inr a.
Definition Raise {A : Type} (e : error) : result A := inl e.

Definition bind {A B : Type} (m : result A) (k : A -> result B) : result B :=
  match m with
  | inl e => inl e
  | inr a => k a
  end.

Notation "x <- m ;; k" := (bind m (fun x => k))
  (at level 61, m at next level, right associativity).

(** A Python [for] loop whose body may raise, over an accumulated state. *)
Fixpoint for_each {A S : Type} (body : S -> A -> result S) (xs : list A) (s : S)
  : result S :=
  match xs with
  | [] => Ok s
  | x :: xs' => s' <- body s x ;; for_each body xs' s'
  end.

(** [Series.apply(f)] for an [f] that may raise: element by element, left to
    right, the first exception wins. *)
Fixpoint apply_raising {A B : Type} (f : A -> result B) (xs : list A)
  : result (list B) :=
  match xs with
  | [] => Ok []
  | x :: xs' => y <- f x ;; ys <- apply_raising f xs' ;; Ok (y :: ys)
  end.

Definition number_eq_dec (x y : number) : {x = y} + {x <> y}.
Proof.
  decide equality.
  - destruct q as [a b], q0 as [c d].
    destruct (Z.eq_dec a c) as [-> | N]; [ | right; congruence ].
    destruct (Pos.eq_dec b d) as [-> | N]; [ left; reflexivity | right; congruence ].
  - apply bool_dec.
Defined.

Definition value_eq_dec (x y : value) : {x = y} + {x <> y}.
Proof.
  decide equality.
  - apply string_dec.
  - apply number_eq_dec.
Defined.

(* ================================================================== *)
(** * Python string methods *)

(** [str.lower] on the ASCII letters; other bytes are left as they are. *)
Definition lower_ascii (c : ascii) : ascii :=
  let n := nat_of_ascii c in
  if (65 <=? n)%nat && (n <=? 90)%nat then ascii_of_nat (n + 32) else c.

Fixpoint lower (s : string) : string :=
  match s with
  | EmptyString => EmptyString
  | String c r => String (lower_ascii c) (lower r)
  end.

(** [str.replace(old, new)] scans from the left and replaces the
    non-overlapping occurrences of [old].  [skip] counts the characters of a
    match just replaced that are still to be passed over. *)
Fixpoint replace_from (old new : string) (skip : nat) (s : string) : string :=
  match s with
  | EmptyString => EmptyString
  | String c r =>
      match skip with
      | S k => replace_from old new k r
      | O =>
          if prefix old s
          then (new ++ replace_from old new (pred (String.length old)) r)%string
          else String c (replace_from old new 0 r)
      end
  end.

(** With an empty [old], Python puts [new] before every character and at the
    end. *)
Fixpoint intersperse (new s : string) : string :=
  match s with
  | EmptyString => new
  | String c r => (new ++ String c (intersperse new r))%string
  end.

Definition str_replace (old new s : string) : string :=
  match old with
  | EmptyString => intersperse new s
  | _ => replace_from old new 0 s
  end.

(* ================================================================== *)
(** * pd.to_numeric on one value *)

(** The C [isspace] set. *)
Definition is_space (c : ascii) : bool :=
  let n := nat_of_ascii c in
  (n =? 32)%nat || ((9 <=? n)%nat && (n <=? 13)%nat).

Fixpoint skip_space (s : string) : string :=
  match s with
  | String c r => if is_space c then skip_space r else s
  | EmptyString => s
  end.

Definition digit_of (c : ascii) : option Z :=
  let n := nat_of_ascii c in
  if (48 <=? n)%nat && (n <=? 57)%nat then Some (Z.of_nat (n - 48)) else None.

(** Reads a run of decimal digits into [acc]; [n] counts them. *)
Fixpoint take_digits (s : string) (acc : Z) (n : nat) : Z * nat * string :=
  match s with
  | String c r =>
      match digit_of c with
      | Some d => take_digits r (10 * acc + d) (S n)
      | None => (acc, n, s)
      end
  | EmptyString => (acc, n, s)
  end.

(** An optional sign: [true] for a minus. *)
Definition read_sign (s : string) : bool * string :=
  match s with
  | String c r =>
      if Ascii.eqb c "-" then (true, r)
      else if Ascii.eqb c "+" then (false, r)
      else (false, s)
  | EmptyString => (false, s)
  end.

Definition signed (neg : bool) (z : Z) : Z := if neg then (- z)%Z else z.

(** An optional exponent part; [None] when the [e] is followed by no digit. *)
Definition read_exponent (s : string) : option (Z * string) :=
  match s with
  | String c r =>
      if Ascii.eqb c "e" || Ascii.eqb c "E" then
        let '(neg, r1) := read_sign r in
        let '(ev, n, r2) := take_digits r1 0 0 in
        if (n =? 0)%nat then None else Some (signed neg ev, r2)
      else Some (0%Z, s)
  | EmptyString => Some (0%Z, s)
  end.

(** An optional fraction part, read on into the mantissa [ip]; the count is
    that of the digits after the point. *)
Definition read_fraction (s : string) (ip : Z) : Z * nat * string :=
  match s with
  | String c r => if Ascii.eqb c "." then take_digits r ip 0 else (ip, 0%nat, s)
  | EmptyString => (ip, 0%nat, s)
  end.

(** The decimal scanner behind [to_numeric] for a [str]: blanks, sign,
    digits, an optional fraction, an optional exponent, blanks, end of
    string; at least one digit in the mantissa. *)
Definition parse_decimal (s : string) : option Q :=
  let s0 := skip_space s in
  let '(neg, s1) := read_sign s0 in
  let '(ip, ni, s2) := take_digits s1 0 0 in
  let '(m, nf, s3) := read_fraction s2 ip in
  if (ni + nf =? 0)%nat then None
  else
    match read_exponent s3 with
    | None => None
    | Some (e, s4) =>
        match skip_space s4 with
        | EmptyString =>
            Some (Qred (inject_Z (signed neg m)
                        * Qpower (10 # 1) (e - Z.of_nat nf))%Q)
        | String _ _ => None
        end
    end.

(** The spellings of infinity that the scanner's fallback accepts, compared
    without regard to case. *)
Definition parse_infinity (s : string) : option number :=
  let l := lower s in
  if String.eqb l "inf" || String.eqb l "+inf"
     || String.eqb l "infinity" || String.eqb l "+infinity"
  then Some (Inf false)
  else if String.eqb l "-inf" || String.eqb l "-infinity"
  then Some (Inf true)
  else None.

(** [pd.to_numeric(x)] with the default [errors='raise'], as line 159 calls
    it: a number or a missing value passes through, the empty string is
    missing, a [str] is scanned, and a [str] that does not scan raises
    [ValueError] (Unable to parse string). *)
Definition to_numeric (v : value) : result value :=
  match v with
  | NaN | PyNone => Ok NaN
  | Num x => Ok (Num x)
  | Str EmptyString => Ok NaN
  | Str s =>
      match parse_decimal s with
      | Some q => Ok (Num (Fin q))
      | None =>
          match parse_infinity s with
          | Some x => Ok (Num x)
          | None => Raise ValueError
          end
      end
  end.

(** [pd.to_numeric(x, errors='coerce')], as lines 170 and 234 call it for the
    retirement year: what does not scan becomes [nan]. *)
Definition to_numeric_coerce (v : value) : value :=
  match to_numeric v with
  | inr w => w
  | inl _ => NaN
  end.

(* ================================================================== *)
(** * Import and join (lines 10-121) *)

(** A table after [set_index]: the names of its columns and, row by row, the
    index entry with the cells of those columns. *)
Record indexed (K : Type) : Type := mk_indexed {
  columns : list string;
  rows : list (K * list value)
}.
Arguments mk_indexed {K} _ _.
Arguments columns {K} _.
Arguments rows {K} _.

(** A row of TADPOLE_D1_D2.csv, ADASSCORES.csv or FHQ.csv as read: its [RID]
    and [VISCODE] fields and the cells of its other columns, in order (for
    FHQ.csv, of the six columns of interest). *)
Record visit_row : Type := mk_visit {
  RID : Z;
  VISCODE : string;
  cells : list value
}.

(** A row of PTDEMOG.csv: subject, [USERDATE] (a date string, or nothing for
    an empty field), and the cells of the eight columns of interest. *)
Record demo_row : Type := mk_demo {
  demo_RID : Z;
  USERDATE : option string;
  demo_cells : list value
}.

(** A row of TOMM40.csv. *)
Record subject_row : Type := mk_subject {
  subj_RID : Z;
  subj_cells : list value
}.

Definition visit_key : Type := (Z * string)%type.

Definition visit_key_eq_dec (a b : visit_key) : {a = b} + {a <> b}.
Proof.
  decide equality; [ apply string_dec | apply Z.eq_dec ].
Defined.

(** [not Index.is_unique]. *)
Fixpoint has_duplicates {K : Type} (eq_dec : forall a b : K, {a = b} + {a <> b})
  (ks : list K) : bool :=
  match ks with
  | [] => false
  | k :: r => if in_dec eq_dec k r then true else has_duplicates eq_dec r
  end.

(** [df.set_index(keys, inplace=True, verify_integrity=True)]: the key
    columns become the index; a repeated index entry raises [ValueError]
    (Index has duplicate keys). *)
Definition set_index {R K : Type} (eq_dec : forall a b : K, {a = b} + {a <> b})
  (key : R -> K) (body : R -> list value) (cols : list string) (rs : list R)
  : result (indexed K) :=
  if has_duplicates eq_dec (map key rs) then Raise ValueError
  else Ok (mk_indexed cols (map (fun r => (key r, body r)) rs)).

(** Lines 31-35: of the ADAS columns only [columns[5:20]] stay, renamed with
    the prefix [ADAS_].  The script drops the other columns by name;
    [drop_and_rename_adas] below has the lines as they are written. *)
Definition adas_slice {X : Type} (l : list X) : list X := firstn 15 (skipn 5 l).

Definition adas_columns (t : indexed visit_key) : indexed visit_key :=
  mk_indexed (map (fun c => ("ADAS_" ++ c)%string) (adas_slice (columns t)))
             (map (fun r => (fst r, adas_slice (snd r))) (rows t)).

(** ** Latest record by patient (lines 52-67) *)

Definition ts_gtb (a b : string) : bool :=
  match String.compare a b with
  | Gt => true
  | _ => false
  end.

(** The non-missing [USERDATE]s of one subject: the group that
    [groupby(['RID'])['USERDATE']] hands to [rank]. *)
Definition group_dates (rid : Z) (rs : list demo_row) : list string :=
  flat_map (fun r =>
              if Z.eqb (demo_RID r) rid
              then match USERDATE r with Some t => [t] | None => [] end
              else []) rs.

(** [rank(ascending=False)] with the default [method='average']: the values
    equal to [t] share the mean of the places [g+1 .. g+e] they occupy, where
    [g] counts the larger values of the group and [e] those equal to [t].
    The rank depends on the values of the group only, so the [sort_values]
    of line 52 changes none, and the assignment of line 53 puts each rank
    back on the row it was computed for. *)
Definition rank_desc (group : list string) (t : string) : Q :=
  let g := List.length (filter (fun u => ts_gtb u t) group) in
  let e := List.length (filter (String.eqb t) group) in
  (inject_Z (Z.of_nat g) + (inject_Z (Z.of_nat e) + 1) / 2)%Q.

(** The [RNK] column; a missing [USERDATE] has no rank ([na_option='keep']). *)
Definition RNK (rs : list demo_row) (r : demo_row) : option Q :=
  match USERDATE r with
  | Some t => Some (rank_desc (group_dates (demo_RID r) rs) t)
  | None => None
  end.

(** [data_demo.loc[data_demo['RNK'] == 1, cols]]. *)
Definition select_latest (rs : list demo_row) : list demo_row :=
  filter (fun r => match RNK rs r with
                   | Some q => Qeq_bool q 1%Q
                   | None => false
                   end) rs.

(** [data_fam.loc[data_fam['VISCODE'] == "sc", :]]. *)
Definition select_screening (rs : list visit_row) : list visit_row :=
  filter (fun r => String.eqb (VISCODE r) "sc") rs.

(** ** Left joins *)

(** The rows of a left join: every left row, in order, once for each right
    row whose index entry matches [proj] of its own; with no match, once,
    with [width] missing cells. *)
Definition join_rows {K K' : Type} (eq_dec : forall a b : K', {a = b} + {a <> b})
  (proj : K -> K') (width : nat)
  (left : list (K * list value)) (right : list (K' * list value))
  : list (K * list value) :=
  flat_map (fun l =>
              match filter (fun r => if eq_dec (proj (fst l)) (fst r)
                                     then true else false) right with
              | [] => [(fst l, snd l ++ repeat NaN width)]
              | ms => map (fun r => (fst l, snd l ++ snd r)) ms
              end) left.

Definition mem_string (c : string) (l : list string) : bool :=
  if in_dec string_dec c l then true else false.

(** [pd.merge(data, other, how="left", left_index=True, right_index=True)]
    (line 38): on the whole index; a column name on both sides gets the
    suffixes [_x] and [_y]. *)
Definition merge_left (data other : indexed visit_key) : indexed visit_key :=
  mk_indexed
    (map (fun c => if mem_string c (columns other) then (c ++ "_x")%string else c)
         (columns data)
     ++ map (fun c => if mem_string c (columns data) then (c ++ "_y")%string else c)
         (columns other))
    (join_rows visit_key_eq_dec (fun k => k) (List.length (columns other))
               (rows data) (rows other)).

(** [data.join(other, how="left")] (lines 73, 103, 121): on the index level
    [RID]; a column name on both sides raises [ValueError] (columns
    overlap but no suffix specified). *)
Definition join_left (data : indexed visit_key) (other : indexed Z)
  : result (indexed visit_key) :=
  if existsb (fun c => mem_string c (columns other)) (columns data)
  then Raise ValueError
  else Ok (mk_indexed (columns data ++ columns other)
             (join_rows Z.eq_dec fst (List.length (columns other))
                        (rows data) (rows other))).

(** [df.drop(labels, axis=1)]: the columns named in [labels] go, from the
    header and from every row; a label that names no column raises
    [KeyError].  Only membership in [labels] matters, so the Python set is
    given as a list. *)
Definition drop_columns {K : Type} (labels : list string) (t : indexed K)
  : result (indexed K) :=
  if forallb (fun c => mem_string c (columns t)) labels
  then Ok (mk_indexed
             (filter (fun c => negb (mem_string c labels)) (columns t))
             (map (fun r =>
                     (fst r,
                      map snd (filter (fun nc => negb (mem_string (fst nc) labels))
                                      (combine (columns t) (snd r)))))
                  (rows t)))
  else Raise KeyError.

(** Lines 31-35 as they are written: [cols] is the set of the column names
    less the set of the names in the places 5 to 19, [drop] removes the
    columns so named, and the columns left get the prefix [ADAS_]. *)
Definition drop_and_rename_adas (t : indexed visit_key)
  : result (indexed visit_key) :=
  let cols :=
    filter (fun c => negb (mem_string c (adas_slice (columns t)))) (columns t) in
  t' <- drop_columns cols t ;;
  Ok (mk_indexed (map (fun c => ("ADAS_" ++ c)%string) (columns t')) (rows t')).

(** An auxiliary table ready to be joined, by the index it has. *)
Inductive aux : Type :=
  | ByVisit (t : indexed visit_key)
  | BySubject (t : indexed Z).

Definition join_step (data : indexed visit_key) (a : aux)
  : result (indexed visit_key) :=
  match a with
  | ByVisit t => Ok (merge_left data t)
  | BySubject t => join_left data t
  end.

(** Any number of left joins onto the accumulating table. *)
Definition join_all (data : indexed visit_key) (auxs : list aux)
  : result (indexed visit_key) :=
  for_each join_step auxs data.

Definition load_visits (cols : list string) (rs : list visit_row)
  : result (indexed visit_key) :=
  set_index visit_key_eq_dec (fun r => (RID r, VISCODE r)) cells cols rs.

Definition load_demo (cols : list string) (rs : list demo_row)
  : result (indexed Z) :=
  set_index Z.eq_dec demo_RID demo_cells cols (select_latest rs).

Definition load_fam (cols : list string) (rs : list visit_row)
  : result (indexed Z) :=
  set_index Z.eq_dec RID cells cols (select_screening rs).

Definition load_tom (cols : list string) (rs : list subject_row)
  : result (indexed Z) :=
  set_index Z.eq_dec subj_RID subj_cells cols rs.

(** The five CSV files as read, each with the names of its non-key columns. *)
Record sources : Type := mk_sources {
  tadpole_cols : list string;   tadpole : list visit_row;
  adas_cols : list string;      adas : list visit_row;
  demo_cols : list string;      demo : list demo_row;
  fam_cols : list string;       fam : list visit_row;
  tom_cols : list string;       tom : list subject_row
}.

(** Lines 10-121, in the order the script runs them. *)
Definition import_and_join (src : sources) : result (indexed visit_key) :=
  data <- load_visits (tadpole_cols src) (tadpole src) ;;
  data_adas <- load_visits (adas_cols src) (adas src) ;;
  data <- join_step data (ByVisit (adas_columns data_adas)) ;;
  data_demo <- load_demo (demo_cols src) (demo src) ;;
  data <- join_step data (BySubject data_demo) ;;
  data_fam <- load_fam (fam_cols src) (fam src) ;;
  data <- join_step data (BySubject data_fam) ;;
  data_tom <- load_tom (tom_cols src) (tom src) ;;
  join_step data (BySubject data_tom).

(* ================================================================== *)
(** * Metadata and the numerical features (lines 127-159) *)

(** A row of metadata_raw.csv. *)
Record meta_entry : Type := mk_meta {
  column_name : string;
  keep : Z;
  numeric : Z;
  categorical : Z;
  data_type : string
}.

(** The table from here on, column by column: [data[c]] is a lookup by name.
    The names are meant to be distinct, as they are when the registry lists
    no column twice: with a repeated name [data[c]] would be a table, not a
    series, and the script's calls are not written for that. *)
Definition frame : Type := list (string * list value).

(** [data[c]]; an unknown name raises [KeyError]. *)
Fixpoint getcol (c : string) (d : frame) : result (list value) :=
  match d with
  | [] => Raise KeyError
  | (n, col) :: d' => if String.eqb n c then Ok col else getcol c d'
  end.

(** [data[c] = col]: in place for a known name, a new last column otherwise. *)
Fixpoint setcol (c : string) (col : list value) (d : frame) : frame :=
  match d with
  | [] => [(c, col)]
  | (n, old) :: d' =>
      if String.eqb n c then (n, col) :: d' else (n, old) :: setcol c col d'
  end.

(** The columns of the joined table, one series each. *)
Definition to_frame {K : Type} (t : indexed K) : frame :=
  map (fun jc => (snd jc, map (fun r => nth (fst jc) (snd r) NaN) (rows t)))
      (combine (seq 0 (List.length (columns t))) (columns t)).

(** Line 132. *)
Definition kept_meta (data_meta : list meta_entry) : list meta_entry :=
  filter (fun m => Z.eqb (keep m) 1) data_meta.

(** Lines 135-136, [data = data[cols]]. *)
Definition select_columns (cols : list string) (data : frame) : result frame :=
  apply_raising (fun c => col <- getcol c data ;; Ok (c, col)) cols.

(** Line 145, [data.replace(' ', np.nan)]: a cell equal to the string of one
    space becomes [nan]; every other cell stays. *)
Definition replace_blank (v : value) : value :=
  match v with
  | Str s => if String.eqb s " " then NaN else v
  | _ => v
  end.

(** Lines 148-150. *)
Definition censored_cols : list string :=
  [ "ABETA_UPENNBIOMK9_04_19_17";
    "TAU_UPENNBIOMK9_04_19_17";
    "PTAU_UPENNBIOMK9_04_19_17" ].

(** Line 153 on one cell, [.str.replace("<", "").str.replace(">", "")]: the
    [.str] methods give [nan] for a cell that is not a [str].  The three
    columns are taken to be read as text, as a column holding [<200] is: on
    a column that holds no string at all the [.str] accessor itself raises
    [AttributeError], a failure that is not part of this model. *)
Definition strip_comparison (v : value) : value :=
  match v with
  | Str s => Str (str_replace ">" "" (str_replace "<" "" s))
  | _ => NaN
  end.

(** Lines 155-157. *)
Definition numeric_cols (data_meta : list meta_entry) : list string :=
  map column_name
      (filter (fun m => Z.eqb (numeric m) 1 && String.eqb (data_type m) "object")
              data_meta).

(** Lines 145-159 on the table.  [data_meta] is the metadata already cut down
    to the kept entries. *)
Definition clean_numerical (data_meta : list meta_entry) (data : frame)
  : result frame :=
  let data := map (fun nc => (fst nc, map replace_blank (snd nc))) data in
  data <- for_each (fun d c =>
                      col <- getcol c d ;;
                      Ok (setcol c (map strip_comparison col) d))
                   censored_cols data ;;
  for_each (fun d c =>
              col <- getcol c d ;;
              col' <- apply_raising to_numeric col ;;
              Ok (setcol c col' d))
           (numeric_cols data_meta) data.

(* ================================================================== *)
(** * The categorical features (lines 178-225) *)

(** Lines 180-187.  A [row] that is not a [str] has no [lower]: the bare
    [except] turns the [AttributeError] into [None]. *)
Definition clean_text (s : string) : string :=
  str_replace "-4" "unknown"
    (str_replace "." ""
       (str_replace "/" "_"
          (str_replace " " "_" (lower s)))).

Definition clean_string (row : value) : value :=
  match row with
  | Str s => Str (clean_text s)
  | _ => PyNone
  end.

Section Levels.

Context {A : Type}.
Variable eq_dec : forall a b : A, {a = b} + {a <> b}.

Definition eqb_of (a b : A) : bool := if eq_dec a b then true else false.

(** The distinct elements, in the order of their first occurrence. *)
Fixpoint unique (l : list A) : list A :=
  match l with
  | [] => []
  | x :: r => x :: filter (fun y => negb (eqb_of x y)) (unique r)
  end.

(** Insertion sort; [before y x] says that [y] has to stay in front of an
    [x] that arrives from its left. *)
Variable before : A -> A -> bool.

Fixpoint insert (x : A) (l : list A) : list A :=
  match l with
  | [] => [x]
  | y :: r => if before y x then y :: insert x r else x :: l
  end.

Fixpoint isort (l : list A) : list A :=
  match l with
  | [] => []
  | x :: r => insert x (isort r)
  end.

End Levels.

(** [pd.value_counts(col)]: the distinct non-missing values with their
    counts, the most frequent first.  Among equal counts the value seen
    first comes first (a stable sort); no theorem below depends on that
    choice. *)
Definition value_counts (col : list value) : list (value * nat) :=
  isort (fun y x => (snd x <? snd y)%nat)
        (map (fun v => (v, count_occ value_eq_dec col v))
             (unique value_eq_dec (filter (fun v => negb (isnull v)) col))).

(** Python's [x in counts]. *)
Definition py_in (x : value) (l : list value) : bool :=
  existsb (eqb_of value_eq_dec x) l.

(** Line 200: the kept levels. *)
Definition top_levels (col : list value) : list value :=
  firstn 30 (map fst (value_counts col)).

(** Lines 200-201. *)
Definition group_smaller_levels (col : list value) : list value :=
  let counts := top_levels col in
  map (fun x => if py_in x counts then x else Str "other") col.

(** Lines 197-201: clean, then group. *)
Definition clean_and_group (col : list value) : list value :=
  group_smaller_levels (map clean_string col).

Section Dummies.

Context {A : Type}.
Variable eq_dec : forall a b : A, {a = b} + {a <> b}.
Variable leb : A -> A -> bool.
Variable render : A -> string.

(** The categories of the column: its distinct non-missing values, sorted. *)
Definition levels (col : list (option A)) : list A :=
  isort (fun y x => negb (leb x y))
        (unique eq_dec (flat_map (fun v => match v with
                                           | Some a => [a]
                                           | None => []
                                           end) col)).

Definition indicator (l : A) (col : list (option A)) : list nat :=
  map (fun v => match v with
                | Some a => if eq_dec a l then 1 else 0
                | None => 0
                end) col.

(** [pd.get_dummies(col, prefix=c, drop_first=True)]: a 0/1 column named
    [c_level] for every category but the first. *)
Definition get_dummies (c : string) (col : list (option A))
  : list (string * list nat) :=
  map (fun l => (c ++ "_" ++ render l, indicator l col))%string
      (tl (levels col)).

End Dummies.

(** The sum over the indicator columns [ds] of their entries in row [i]. *)
Definition row_sum (ds : list (string * list nat)) (i : nat) : nat :=
  list_sum (map (fun d => nth i (snd d) 0) ds).

(** A cell of a text column as a category: a [str] is one, nothing else is. *)
Definition as_text (v : value) : option string :=
  match v with
  | Str s => Some s
  | _ => None
  end.

(** A cell of a numeric-coded column as a category. *)
Definition as_number (v : value) : option number :=
  match v with
  | Num x => Some x
  | _ => None
  end.

Definition number_leb (x y : number) : bool :=
  match x, y with
  | Inf true, _ => true
  | _, Inf false => true
  | Fin p, Fin q => Qle_bool p q
  | _, _ => false
  end.

(** Lines 197-204 for one text column [c]: its indicator columns. *)
Definition encode_text (c : string) (col : list value)
  : list (string * list nat) :=
  get_dummies string_dec String.leb (fun s => s) c
              (map as_text (clean_and_group col)).


(** ** The two loops over the categorical columns, on the table *)

(** Lines 190-192 and 211-213. *)
Definition text_cat_cols (data_meta : list meta_entry) : list string :=
  map column_name
      (filter (fun m => Z.eqb (categorical m) 1
                        && String.eqb (data_type m) "object")
              data_meta).

Definition coded_cat_cols (data_meta : list meta_entry) : list string :=
  map column_name
      (filter (fun m => Z.eqb (categorical m) 1
                        && negb (String.eqb (data_type m) "object"))
              data_meta).

(** The 0/1 columns of [get_dummies] as columns of the table. *)
Definition dummies_frame (ds : list (string * list nat)) : frame :=
  map (fun d => (fst d, map (fun b => Num (Fin (inject_Z (Z.of_nat b)))) (snd d)))
      ds.

(** [data.join(df)] (lines 205, 222) for a [df] on the same index: the
    columns of [df] come last; a column name on both sides raises
    [ValueError]. *)
Definition join_columns (data df : frame) : result frame :=
  if existsb (fun nc => mem_string (fst nc) (map fst df)) data
  then Raise ValueError
  else Ok (data ++ df).

(** [data.drop(c, axis=1)] (lines 208, 225): every column of that name goes;
    an unknown name raises [KeyError]. *)
Definition drop_column (c : string) (data : frame) : result frame :=
  if mem_string c (map fst data)
  then Ok (filter (fun nc => negb (String.eqb (fst nc) c)) data)
  else Raise KeyError.

(** The body of the loop of lines 194-208 for the column [c]. *)
Definition encode_text_step (data : frame) (c : string) : result frame :=
  col <- getcol c data ;;
  let data := setcol c (map clean_string col) data in
  col <- getcol c data ;;
  let data := setcol c (group_smaller_levels col) data in
  col <- getcol c data ;;
  data <- join_columns data
            (dummies_frame
               (get_dummies string_dec String.leb (fun s => s) c
                            (map as_text col))) ;;
  drop_column c data.

(** The body of the loop of lines 215-225 for the column [c]. *)
Definition encode_coded_step (render : number -> string)
  (data : frame) (c : string) : result frame :=
  col <- getcol c data ;;
  col' <- apply_raising to_numeric col ;;
  let data := setcol c col' data in
  col <- getcol c data ;;
  data <- join_columns data
            (dummies_frame
               (get_dummies number_eq_dec number_leb render c
                            (map as_number col))) ;;
  drop_column c data.

(** Lines 189-225. *)
Definition encode_categorical (render : number -> string)
  (data_meta : list meta_entry) (data : frame) : result frame :=
  data <- for_each encode_text_step (text_cat_cols data_meta) data ;;
  for_each (encode_coded_step render) (coded_cat_cols data_meta) data.

(** ** The retirement year (lines 168-170 and 233-234) *)

(** Python's [str(x)]; [render] is [str] on numbers. *)
Definition py_str (render : number -> string) (x : value) : string :=
  match x with
  | NaN => "nan"
  | PyNone => "None"
  | Str s => s
  | Num n => render n
  end.

(** [s[-4:]]: the last four characters, the whole of a shorter string. *)
Definition last4 (s : string) : string :=
  substring (String.length s - 4) 4 s.

(** [lambda x: str(x)[-4:]] followed by
    [pd.to_numeric(..., errors='coerce')]. *)
Definition retirement_year (render : number -> string) (x : value) : value :=
  to_numeric_coerce (Str (last4 (py_str render x))).

(** The two assignments to [PTRTYR], on the table. *)
Definition retirement_step (render : number -> string) (data : frame)
  : result frame :=
  col <- getcol "PTRTYR" data ;;
  let data := setcol "PTRTYR" (map (fun x => Str (last4 (py_str render x))) col)
                     data in
  col <- getcol "PTRTYR" data ;;
  Ok (setcol "PTRTYR" (map to_numeric_coerce col) data).

(** ** The script as a whole *)

(** What the script writes: the index of the table, written with both
    files, the columns of data_all_no_encode.csv and those of
    data_all.csv. *)
Record artifacts : Type := mk_artifacts {
  out_index : list visit_key;
  data_all_no_encode : frame;
  data_all : frame
}.

(** Lines 10-237.  [meta] is metadata_raw.csv as read. *)
Definition prepare (render : number -> string) (src : sources)
  (meta : list meta_entry) : result artifacts :=
  joined <- import_and_join src ;;
  let data_meta := kept_meta meta in
  data <- select_columns (map column_name data_meta) (to_frame joined) ;;
  data <- clean_numerical data_meta data ;;
  data_for_viz <- retirement_step render data ;;
  data <- encode_categorical render data_meta data ;;
  data <- retirement_step render data ;;
  Ok (mk_artifacts (map fst (rows joined)) data_for_viz data).

(* ================================================================== *)
(** * Predicates used to state the properties *)

(** [pat in s]: the string [pat] occurs somewhere in [s]. *)
Fixpoint occurs (pat s : string) : bool :=
  match s with
  | EmptyString => prefix pat s
  | String _ r => prefix pat s || occurs pat r
  end.

(** Every character of [s] passes [p]. *)
Fixpoint all_chars (p : ascii -> bool) (s : string) : bool :=
  match s with
  | EmptyString => true
  | String c r => p c && all_chars p r
  end.

Definition is_upper (c : ascii) : bool :=
  let n := nat_of_ascii c in (65 <=? n)%nat && (n <=? 90)%nat.


(** [c] is a character that [clean_string] leaves alone: no capital, blank,
    slash or period. *)
Definition plain (c : ascii) : bool :=
  negb (is_upper c) && negb (Ascii.eqb " " c) && negb (Ascii.eqb "/" c)
  && negb (Ascii.eqb "." c).

(** [s] is a text as [clean_string] leaves it: plain characters, no [-4]. *)
Definition cleaned (s : string) : bool :=
  all_chars plain s && negb (occurs "-4" s).

(** The rows of an auxiliary table that match the index entry [k] of a
    primary row, its number of columns, and whether its index is unique. *)
Definition matching (k : visit_key) (a : aux) : list (list value) :=
  match a with
  | ByVisit t =>
      map snd (filter (fun r => if visit_key_eq_dec k (fst r) then true else false)
                      (rows t))
  | BySubject t =>
      map snd (filter (fun r => if Z.eq_dec (fst k) (fst r) then true else false)
                      (rows t))
  end.

Definition width (a : aux) : nat :=
  match a with
  | ByVisit t => List.length (columns t)
  | BySubject t => List.length (columns t)
  end.

Definition unique_index (a : aux) : Prop :=
  match a with
  | ByVisit t => NoDup (map fst (rows t))
  | BySubject t => NoDup (map fst (rows t))
  end.

(** The cells that the join with [a] appends to the primary row of index
    [k]: those of the matching row, or as many missing values as [a] has
    columns. *)
Definition joined_cells (k : visit_key) (a : aux) : list value :=
  match matching k a with
  | [] => repeat NaN (width a)
  | m :: _ => m
  end.

(** The row [r] carries the date [t]. *)
Definition date_is (t : string) (r : demo_row) : bool :=
  match USERDATE r with
  | Some u => String.eqb t u
  | None => false
  end.

(** The rows of subject [rid] in a table of demographics. *)
Definition of_subject (rid : Z) (rs : list demo_row) : list demo_row :=
  filter (fun r => Z.eqb (demo_RID r) rid) rs.

(** The candidates of [value_counts]: the distinct non-missing values. *)
Definition distinct_values (col : list value) : list value :=
  unique value_eq_dec (filter (fun v => negb (isnull v)) col).

(** [s] starts with the character [4]. *)
Definition first_is_4 (s : string) : bool :=
  match s with
  | String d _ => Ascii.eqb d "4"
  | EmptyString => false
  end.


(** What lines 145-159 make of one cell of column [c], by the lists the
    column is on. *)
Definition normalize_cell (data_meta : list meta_entry) (c : string) (v : value)
  : result value :=
  let v1 := replace_blank v in
  let v2 := if mem_string c censored_cols then strip_comparison v1 else v1 in
  if mem_string c (numeric_cols data_meta) then to_numeric v2 else Ok v2.

Definition aux_columns (a : aux) : list string :=
  match a with
  | ByVisit t => columns t
  | BySubject t => columns t
  end.

(** Every row of the table has one cell per column. *)
Definition well_formed {K : Type} (t : indexed K) : Prop :=
  Forall (fun r => List.length (snd r) = List.length (columns t)) (rows t).

(** Every column of the table has [n] cells. *)
Definition rectangular (n : nat) (d : frame) : Prop :=
  Forall (fun nc => List.length (snd nc) = n) d.

(** A cell that is not a [str]. *)
Definition not_str (v : value) : bool :=
  match v with
  | Str _ => false
  | _ => true
  end.

(* ================================================================== *)
(** * Properties *)

(** ** Strings *)

Lemma replace_char_cons (c0 : ascii) (new : string) (c : ascii) (r : string) :
  str_replace (String c0 EmptyString) new (String c r)
  = if Ascii.eqb c0 c
    then (new ++ str_replace (String c0 EmptyString) new r)%string
    else String c (str_replace (String c0 EmptyString) new r).
Proof.
  unfold str_replace. simpl.
  destruct (ascii_dec c0 c) as [-> | N].
  - rewrite Ascii.eqb_refl. destruct r; reflexivity.
  - apply Ascii.eqb_neq in N. rewrite N. reflexivity.
Qed.

Lemma all_chars_app (p : ascii -> bool) (a b : string) :
  all_chars p (a ++ b)%string = all_chars p a && all_chars p b.
Proof.
  induction a as [ | c a IH ]; simpl.
  - reflexivity.
  - rewrite IH. apply andb_assoc.
Qed.

(** Replacing a character that does not occur changes nothing. *)
Lemma replace_char_absent (c0 : ascii) (new s : string) :
  all_chars (fun c => negb (Ascii.eqb c0 c)) s = true ->
  str_replace (String c0 EmptyString) new s = s.
Proof.
  induction s as [ | c r IH ]; intros H.
  - reflexivity.
  - simpl in H. apply andb_true_iff in H as [Hc Hr].
    rewrite replace_char_cons.
    apply negb_true_iff in Hc. rewrite Hc. f_equal. auto.
Qed.

(** Replacing a character keeps any property of characters that the
    replacement text has. *)
Lemma replace_char_all (p : ascii -> bool) (c0 : ascii) (new s : string) :
  all_chars p new = true -> all_chars p s = true ->
  all_chars p (str_replace (String c0 EmptyString) new s) = true.
Proof.
  intros Hn. induction s as [ | c r IH ]; intros H.
  - reflexivity.
  - simpl in H. apply andb_true_iff in H as [Hc Hr].
    rewrite replace_char_cons. destruct (Ascii.eqb c0 c).
    + rewrite all_chars_app, Hn. simpl. auto.
    + simpl. rewrite Hc. simpl. auto.
Qed.

(** After the replacement the character is gone, if the replacement text
    does not bring it back. *)
Lemma replace_char_gone (c0 : ascii) (new s : string) :
  all_chars (fun c => negb (Ascii.eqb c0 c)) new = true ->
  all_chars (fun c => negb (Ascii.eqb c0 c))
            (str_replace (String c0 EmptyString) new s) = true.
Proof.
  intros Hn. induction s as [ | c r IH ].
  - reflexivity.
  - rewrite replace_char_cons. destruct (Ascii.eqb c0 c) eqn:E.
    + rewrite all_chars_app, Hn. simpl. exact IH.
    + simpl. rewrite E. simpl. exact IH.
Qed.


Lemma all_chars_and (p q : ascii -> bool) (s : string) :
  all_chars (fun c => p c && q c) s = all_chars p s && all_chars q s.
Proof.
  induction s as [ | c r IH ]; simpl.
  - reflexivity.
  - rewrite IH. destruct (p c), (q c), (all_chars p r), (all_chars q r);
      reflexivity.
Qed.

Lemma lower_ascii_not_upper (c : ascii) : is_upper (lower_ascii c) = false.
Proof.
  destruct c as [[] [] [] [] [] [] [] []]; reflexivity.
Qed.

Lemma lower_ascii_fixed (c : ascii) : is_upper c = false -> lower_ascii c = c.
Proof.
  unfold lower_ascii, is_upper. intros ->. reflexivity.
Qed.

Lemma lower_no_upper (s : string) :
  all_chars (fun c => negb (is_upper c)) (lower s) = true.
Proof.
  induction s as [ | c r IH ]; simpl.
  - reflexivity.
  - rewrite lower_ascii_not_upper. exact IH.
Qed.

Lemma lower_fixed (s : string) :
  all_chars (fun c => negb (is_upper c)) s = true -> lower s = s.
Proof.
  induction s as [ | c r IH ]; simpl; intros H.
  - reflexivity.
  - apply andb_true_iff in H as [Hc Hr]. apply negb_true_iff in Hc.
    rewrite (lower_ascii_fixed _ Hc). f_equal. auto.
Qed.

(** ** The replacement of [-4] *)

Lemma prefix_empty (s : string) : prefix EmptyString s = true.
Proof.
  destruct s; reflexivity.
Qed.

Lemma prefix_cons (a b : ascii) (s1 s2 : string) :
  prefix (String a s1) (String b s2) = Ascii.eqb a b && prefix s1 s2.
Proof.
  change (prefix (String a s1) (String b s2))
    with (if ascii_dec a b then prefix s1 s2 else false).
  destruct (ascii_dec a b) as [-> | N].
  - rewrite Ascii.eqb_refl. reflexivity.
  - apply Ascii.eqb_neq in N. rewrite N. reflexivity.
Qed.

Lemma prefix_m4 (c : ascii) (r : string) :
  prefix "-4" (String c r) = Ascii.eqb c "-" && first_is_4 r.
Proof.
  rewrite prefix_cons, (Ascii.eqb_sym "-" c).
  destruct r as [ | d r' ]; [ reflexivity | ].
  rewrite prefix_cons, prefix_empty, andb_true_r, (Ascii.eqb_sym "4" d).
  reflexivity.
Qed.

Lemma replace_m4_step (c : ascii) (r : string) :
  replace_from "-4" "unknown" 0 (String c r)
  = if Ascii.eqb c "-" && first_is_4 r
    then ("unknown" ++ replace_from "-4" "unknown" 1 r)%string
    else String c (replace_from "-4" "unknown" 0 r).
Proof.
  rewrite <- prefix_m4. reflexivity.
Qed.

Lemma occurs_m4_cons (c : ascii) (r : string) :
  occurs "-4" (String c r) = (Ascii.eqb c "-" && first_is_4 r) || occurs "-4" r.
Proof.
  rewrite <- prefix_m4. reflexivity.
Qed.

(** Without an occurrence of [-4] the replacement changes nothing. *)
Lemma replace_m4_absent (s : string) :
  occurs "-4" s = false -> str_replace "-4" "unknown" s = s.
Proof.
  unfold str_replace. induction s as [ | c r IH ]; intros H.
  - reflexivity.
  - rewrite occurs_m4_cons in H. apply orb_false_iff in H as [Hp Hr].
    rewrite replace_m4_step, Hp. f_equal. auto.
Qed.

Lemma replace_m4_gone_from (s : string) :
  forall k,
    occurs "-4" (replace_from "-4" "unknown" k s) = false
    /\ (k = 0%nat -> first_is_4 s = false ->
        first_is_4 (replace_from "-4" "unknown" 0 s) = false).
Proof.
  induction s as [ | c r IH ]; intros k.
  - split; reflexivity.
  - destruct k as [ | k ].
    + rewrite replace_m4_step.
      destruct (Ascii.eqb c "-" && first_is_4 r) eqn:M.
      * split.
        -- change (occurs "-4" (replace_from "-4" "unknown" 1 r) = false).
           apply IH.
        -- reflexivity.
      * split.
        -- rewrite occurs_m4_cons.
           destruct (IH 0%nat) as [Ho Hf]. rewrite Ho, orb_false_r.
           destruct (Ascii.eqb c "-"); [ | reflexivity ].
           simpl in M. simpl. auto.
        -- intros _ H. exact H.
    + split; [ apply (IH k) | discriminate ].
Qed.

(** Every occurrence is replaced: none is left in the result. *)
Lemma replace_m4_gone (s : string) :
  occurs "-4" (str_replace "-4" "unknown" s) = false.
Proof.
  apply (replace_m4_gone_from s 0).
Qed.

Lemma replace_m4_all (p : ascii -> bool) (s : string) :
  all_chars p "unknown" = true -> all_chars p s = true ->
  forall k, all_chars p (replace_from "-4" "unknown" k s) = true.
Proof.
  intros Hn. induction s as [ | c r IH ]; intros H k.
  - reflexivity.
  - simpl in H. apply andb_true_iff in H as [Hc Hr].
    destruct k as [ | k ]; [ | apply (IH Hr) ].
    rewrite replace_m4_step.
    destruct (Ascii.eqb c "-" && first_is_4 r).
    + rewrite all_chars_app, Hn. simpl. auto.
    + simpl. rewrite Hc. simpl. auto.
Qed.

Lemma first_is_4_app (a b : string) :
  first_is_4 (a ++ b)%string
  = match a with EmptyString => first_is_4 b | _ => first_is_4 a end.
Proof.
  destruct a; reflexivity.
Qed.

(** The scan for [-4] in [a ++ rest] is the scan in [a] followed by the scan
    in [rest], when [rest] does not start with a [4] that could complete a
    match begun in [a]. *)
Lemma replace_m4_app (a rest : string) :
  first_is_4 rest = false ->
  forall k, (k <= String.length a)%nat ->
    replace_from "-4" "unknown" k (a ++ rest)
    = (replace_from "-4" "unknown" k a
       ++ replace_from "-4" "unknown" 0 rest)%string.
Proof.
  intros Hr. induction a as [ | c a IH ]; intros k Hk.
  - simpl in Hk. assert (k = 0%nat) as -> by lia.
    destruct rest; reflexivity.
  - destruct k as [ | k ].
    + change (String c a ++ rest)%string with (String c (a ++ rest)%string).
      rewrite !replace_m4_step, first_is_4_app.
      destruct a as [ | d a' ].
      * rewrite Hr. simpl first_is_4. rewrite andb_false_r.
        simpl. f_equal.
      * destruct (Ascii.eqb c "-" && first_is_4 (String d a')).
        -- rewrite IH by (simpl; lia).
           reflexivity.
        -- rewrite IH by lia. reflexivity.
    + simpl in Hk. simpl. apply IH. lia.
Qed.

(** An occurrence of [-4] anywhere in a text is replaced where it stands. *)
Lemma replace_m4_occurrence (a b : string) :
  str_replace "-4" "unknown" (a ++ "-4" ++ b)
  = (str_replace "-4" "unknown" a ++ "unknown"
     ++ str_replace "-4" "unknown" b)%string.
Proof.
  unfold str_replace.
  rewrite replace_m4_app by (reflexivity || lia).
  f_equal.
  change ("-4" ++ b)%string with (String "-" (String "4" b)).
  rewrite replace_m4_step. reflexivity.
Qed.

(** ** clean_string *)

Lemma all_chars_plain (s : string) :
  all_chars plain s
  = all_chars (fun c => negb (is_upper c)) s
    && all_chars (fun c => negb (Ascii.eqb " " c)) s
    && all_chars (fun c => negb (Ascii.eqb "/" c)) s
    && all_chars (fun c => negb (Ascii.eqb "." c)) s.
Proof.
  unfold plain. rewrite !all_chars_and. reflexivity.
Qed.

(** What [clean_string] makes of a [str] is in cleaned form ... *)
Lemma clean_text_cleaned (s : string) : cleaned (clean_text s) = true.
Proof.
  unfold cleaned, clean_text.
  rewrite replace_m4_gone, andb_true_r.
  apply (replace_m4_all plain); [ reflexivity | ].
  rewrite all_chars_plain.
  repeat (apply andb_true_iff; split).
  - repeat (apply replace_char_all; [ reflexivity | ]). apply lower_no_upper.
  - do 2 (apply replace_char_all; [ reflexivity | ]).
    apply replace_char_gone. reflexivity.
  - apply replace_char_all; [ reflexivity | ].
    apply replace_char_gone. reflexivity.
  - apply replace_char_gone. reflexivity.
Qed.

(** ... and a text in cleaned form is left as it is. *)
Lemma cleaned_fixed (s : string) : cleaned s = true -> clean_text s = s.
Proof.
  unfold cleaned. rewrite all_chars_plain. intros H.
  apply andb_true_iff in H as [H Hm]. apply negb_true_iff in Hm.
  apply andb_true_iff in H as [H Hdot].
  apply andb_true_iff in H as [H Hsl].
  apply andb_true_iff in H as [Hup Hsp].
  unfold clean_text.
  rewrite (lower_fixed _ Hup), (replace_char_absent _ _ _ Hsp),
    (replace_char_absent _ _ _ Hsl), (replace_char_absent _ _ _ Hdot).
  apply replace_m4_absent. exact Hm.
Qed.

Lemma clean_text_idempotent (s : string) :
  clean_text (clean_text s) = clean_text s.
Proof.
  apply cleaned_fixed, clean_text_cleaned.
Qed.

Lemma clean_string_idempotent (v : value) :
  clean_string (clean_string v) = clean_string v.
Proof.
  destruct v; simpl; try reflexivity.
  now rewrite clean_text_idempotent.
Qed.

(** C8: in a text categorical column the cleaning step (line 197, the map of
    [clean_string] over the column) turns the raw value [-4] into the token
    [unknown], which is no number, and turns whatever is not a [str] -- a
    missing value in particular -- into [None], which is missing and no
    string. *)
Theorem clean_string_sentinel_and_missing :
  clean_string (Str "-4") = Str "unknown"
  /\ to_numeric (Str "unknown") = Raise ValueError
  /\ clean_string NaN = PyNone
  /\ clean_string PyNone = PyNone
  /\ (forall x, clean_string (Num x) = PyNone)
  /\ isnull PyNone = true
  /\ (forall s, PyNone <> Str s)
  /\ (forall before after : list value,
        map clean_string (before ++ Str "-4" :: after)
        = map clean_string before ++ Str "unknown" :: map clean_string after)
  /\ (forall before after : list value,
        map clean_string (before ++ NaN :: after)
        = map clean_string before ++ PyNone :: map clean_string after).
Proof.
  repeat split; try reflexivity; try discriminate.
  - intros b a. now rewrite map_app.
  - intros b a. now rewrite map_app.
Qed.

(** C10: [clean_string] replaces every occurrence of [-4] in the text it has
    after lowercasing, blank and slash to underscore, and period removal:
    an occurrence is replaced wherever it stands, none is left, and so
    [-40] cleans to [unknown0] and [-4.5] to [unknown5]. *)
Theorem clean_string_replaces_every_m4 :
  (forall s,
      clean_string (Str s)
      = Str (str_replace "-4" "unknown"
               (str_replace "." ""
                  (str_replace "/" "_" (str_replace " " "_" (lower s))))))
  /\ (forall a b,
        str_replace "-4" "unknown" (a ++ "-4" ++ b)
        = (str_replace "-4" "unknown" a ++ "unknown"
           ++ str_replace "-4" "unknown" b)%string)
  /\ (forall s, occurs "-4" (clean_text s) = false)
  /\ clean_string (Str "-40") = Str "unknown0"
  /\ clean_string (Str "-4.5") = Str "unknown5".
Proof.
  split; [ reflexivity | ].
  split; [ exact replace_m4_occurrence | ].
  split; [ | split; reflexivity ].
  intros s. pose proof (clean_text_cleaned s) as H. unfold cleaned in H.
  apply andb_true_iff in H as [_ H]. now apply negb_true_iff in H.
Qed.

(** ** to_numeric *)




















(** One value that does not scan is enough for [apply] to raise. *)
Lemma apply_raising_raises {A B : Type} (f : A -> result B) (xs : list A)
  (x : A) (e : error) :
  In x xs -> f x = Raise e -> exists e', apply_raising f xs = Raise e'.
Proof.
  induction xs as [ | y ys IH ]; intros Hin Hx.
  - destruct Hin.
  - simpl. destruct (f y) as [ e0 | b ] eqn:Ey.
    + exists e0. reflexivity.
    + destruct Hin as [-> | Hin].
      * rewrite Hx in Ey. discriminate.
      * destruct (IH Hin Hx) as [e' ->]. exists e'. reflexivity.
Qed.

(** ** The table, column by column *)

Lemma getcol_setcol (c c' : string) (v : list value) (d : frame) :
  getcol c (setcol c' v d) = if String.eqb c' c then Ok v else getcol c d.
Proof.
  induction d as [ | [n old] d IH ]; simpl.
  - reflexivity.
  - destruct (String.eqb_spec n c') as [-> | N]; simpl.
    + destruct (String.eqb c' c); reflexivity.
    + rewrite IH. destruct (String.eqb_spec n c) as [-> | N'].
      * destruct (String.eqb_spec c' c) as [-> | ]; [ contradiction | reflexivity ].
      * reflexivity.
Qed.

Lemma getcol_map (f : value -> value) (c : string) (d : frame) :
  getcol c (map (fun nc => (fst nc, map f (snd nc))) d)
  = (col <- getcol c d ;; Ok (map f col)).
Proof.
  induction d as [ | [n col] d IH ]; simpl.
  - reflexivity.
  - destruct (String.eqb n c); [ reflexivity | exact IH ].
Qed.

Lemma mem_string_cons (c x : string) (cs : list string) :
  mem_string c (x :: cs) = String.eqb x c || mem_string c cs.
Proof.
  unfold mem_string. simpl.
  destruct (string_dec x c) as [-> | N].
  - now rewrite String.eqb_refl.
  - destruct (String.eqb_spec x c) as [ E | _ ]; [ contradiction | ]. simpl.
    destruct (in_dec string_dec c cs); reflexivity.
Qed.

Lemma mem_string_iff (c : string) (cs : list string) :
  mem_string c cs = true <-> In c cs.
Proof.
  unfold mem_string. destruct (in_dec string_dec c cs); split; auto.
  discriminate.
Qed.

(** A loop that maps [f] over each column of a list of distinct names. *)
Lemma loop_map_columns (f : value -> value) (cs : list string) :
  NoDup cs ->
  forall d d',
    for_each (fun d c => col <- getcol c d ;; Ok (setcol c (map f col) d)) cs d
    = Ok d' ->
    forall c col,
      getcol c d = Ok col ->
      getcol c d' = Ok (if mem_string c cs then map f col else col).
Proof.
  induction 1 as [ | x cs Hnin Hnd IH ]; intros d d' E c col Hc.
  - injection E as <-. exact Hc.
  - simpl in E. destruct (getcol x d) as [ e | colx ] eqn:Gx; [ discriminate | ].
    simpl in E. rewrite mem_string_cons.
    assert (G1 : getcol c (setcol x (map f colx) d)
                 = if String.eqb x c then Ok (map f colx) else Ok col)
      by (rewrite getcol_setcol, Hc; reflexivity).
    destruct (String.eqb_spec x c) as [-> | N].
    + rewrite Hc in Gx. injection Gx as <-.
      rewrite (IH _ _ E c _ G1). simpl.
      destruct (mem_string c cs) eqn:M; [ | reflexivity ].
      apply mem_string_iff in M. contradiction.
    + rewrite (IH _ _ E c _ G1). reflexivity.
Qed.

Lemma apply_raising_fixed {A : Type} (g : A -> result A) (xs ys : list A) :
  (forall v w, g v = Ok w -> g w = Ok w) ->
  apply_raising g xs = Ok ys -> apply_raising g ys = Ok ys.
Proof.
  intros Hg. revert ys.
  induction xs as [ | x xs IH ]; simpl; intros ys E.
  - injection E as <-. reflexivity.
  - destruct (g x) as [ e | y ] eqn:Gx; [ discriminate | ]. simpl in E.
    destruct (apply_raising g xs) as [ e | ys' ]; [ discriminate | ].
    injection E as <-. simpl. rewrite (Hg _ _ Gx). simpl.
    now rewrite (IH ys' eq_refl).
Qed.

Lemma apply_raising_map {A B C : Type} (f : A -> B) (g : B -> result C)
  (xs : list A) :
  apply_raising g (map f xs) = apply_raising (fun x => g (f x)) xs.
Proof.
  induction xs as [ | x xs IH ]; simpl.
  - reflexivity.
  - now rewrite IH.
Qed.

Lemma apply_raising_pure {A B : Type} (f : A -> B) (xs : list A) :
  apply_raising (fun x => Ok (f x)) xs = Ok (map f xs).
Proof.
  induction xs as [ | x xs IH ]; simpl.
  - reflexivity.
  - now rewrite IH.
Qed.

(** A loop that applies a raising [g] to each column of a list of names; a
    name may come twice when [g] leaves its own results alone. *)
Lemma loop_apply_columns (g : value -> result value) (cs : list string) :
  (forall v w, g v = Ok w -> g w = Ok w) ->
  forall d d',
    for_each (fun d c =>
                col <- getcol c d ;;
                col' <- apply_raising g col ;;
                Ok (setcol c col' d)) cs d
    = Ok d' ->
    forall c col,
      getcol c d = Ok col ->
      exists col',
        getcol c d' = Ok col'
        /\ (if mem_string c cs then apply_raising g col else Ok col) = Ok col'.
Proof.
  intros Hg. induction cs as [ | x cs IH ]; intros d d' E c col Hc.
  - injection E as <-. exists col. split; [ exact Hc | reflexivity ].
  - simpl in E. destruct (getcol x d) as [ e | colx ] eqn:Gx; [ discriminate | ].
    simpl in E.
    destruct (apply_raising g colx) as [ e | colx' ] eqn:Ax; [ discriminate | ].
    simpl in E. rewrite mem_string_cons.
    assert (G1 : getcol c (setcol x colx' d)
                 = if String.eqb x c then Ok colx' else Ok col)
      by (rewrite getcol_setcol, Hc; reflexivity).
    destruct (String.eqb_spec x c) as [-> | N].
    + rewrite Hc in Gx. injection Gx as <-.
      destruct (IH _ _ E c _ G1) as [col' [Gd' Hx]].
      exists col'. split; [ exact Gd' | ]. simpl.
      destruct (mem_string c cs).
      * rewrite (apply_raising_fixed g _ _ Hg Ax) in Hx.
        rewrite Ax. exact Hx.
      * rewrite Ax. exact Hx.
    + destruct (IH _ _ E c _ G1) as [col' [Gd' Hx]].
      exists col'. split; [ exact Gd' | exact Hx ].
Qed.

Lemma to_numeric_fixed (v w : value) : to_numeric v = Ok w -> to_numeric w = Ok w.
Proof.
  destruct v as [ | | s | x ]; simpl.
  - intros E. injection E as <-. reflexivity.
  - intros E. injection E as <-. reflexivity.
  - destruct s as [ | c r ]; [ intros E; injection E as <-; reflexivity | ].
    destruct (parse_decimal (String c r)).
    + intros E. injection E as <-. reflexivity.
    + destruct (parse_infinity (String c r)); [ | discriminate ].
      intros E. injection E as <-. reflexivity.
  - intros E. injection E as <-. reflexivity.
Qed.

(** Lines 145-159 work cell by cell: when they run through, every column
    that was there holds, cell for cell, what [normalize_cell] makes of its
    old cells -- so each of those cells was coerced without raising. *)
Lemma clean_numerical_cells (data_meta : list meta_entry) (data data' : frame) :
  clean_numerical data_meta data = Ok data' ->
  forall c col,
    getcol c data = Ok col ->
    exists col',
      getcol c data' = Ok col'
      /\ apply_raising (normalize_cell data_meta c) col = Ok col'.
Proof.
  unfold clean_numerical. intros E c col Hc.
  match type of E with
  | bind ?m _ = _ => destruct m as [ e | d2 ] eqn:E2; [ discriminate | ]
  end.
  simpl in E.
  assert (G1 : getcol c (map (fun nc => (fst nc, map replace_blank (snd nc))) data)
               = Ok (map replace_blank col))
    by (rewrite getcol_map, Hc; reflexivity).
  assert (Hnd : NoDup censored_cols).
  { unfold censored_cols.
    repeat constructor; simpl; intuition discriminate. }
  pose proof (loop_map_columns strip_comparison censored_cols Hnd _ _ E2 c _ G1)
    as G2.
  destruct (loop_apply_columns to_numeric (numeric_cols data_meta)
              to_numeric_fixed _ _ E c _ G2) as [col' [G3 H3]].
  exists col'. split; [ exact G3 | ].
  rewrite <- H3. unfold normalize_cell.
  destruct (mem_string c (numeric_cols data_meta));
    destruct (mem_string c censored_cols);
    rewrite ?map_map, ?apply_raising_map, ?apply_raising_pure;
    reflexivity.
Qed.

(** One cell that fails coercion is enough for lines 145-159 to raise. *)
Lemma clean_numerical_raises (data_meta : list meta_entry) (data : frame)
  (c : string) (col : list value) (v : value) (e : error) :
  getcol c data = Ok col -> In v col ->
  normalize_cell data_meta c v = Raise e ->
  exists e', clean_numerical data_meta data = Raise e'.
Proof.
  intros Hc Hv Hr.
  destruct (clean_numerical data_meta data) as [ e' | data' ] eqn:E.
  - exists e'. reflexivity.
  - exfalso.
    destruct (clean_numerical_cells _ _ _ E c col Hc) as [col' [_ A]].
    destruct (apply_raising_raises _ _ _ _ Hv Hr) as [e' A'].
    rewrite A' in A. discriminate.
Qed.

(** ** The numerical features *)

(** C1, at a failing input: a registry-declared numeric column holding the
    value [abc].  Line 159 calls [pd.to_numeric] without [errors='coerce'],
    so the value that fails coercion raises [ValueError] and the run stops
    there, with no output table; lines 170 and 234 do pass
    [errors='coerce'], and there the same value becomes missing. *)
Theorem numeric_coercion_failure_raises :
  to_numeric (Str "abc") = Raise ValueError
  /\ apply_raising to_numeric [Str "1.5"; Str "abc"; Str "2"] = Raise ValueError
  /\ clean_numerical
       [ mk_meta "ABETA_UPENNBIOMK9_04_19_17" 1 1 0 "object";
         mk_meta "SCORE" 1 1 0 "object" ]
       [ ("ABETA_UPENNBIOMK9_04_19_17", [Str "<200"; Str "741.5"]);
         ("TAU_UPENNBIOMK9_04_19_17", [Str "81"; NaN]);
         ("PTAU_UPENNBIOMK9_04_19_17", [Str ">120"; Str " "]);
         ("SCORE", [Str "1.5"; Str "abc"]) ]
     = Raise ValueError
  /\ to_numeric_coerce (Str "abc") = NaN.
Proof.
  repeat split; reflexivity.
Qed.






(** ** Loading: the uniqueness of the declared keys *)

Lemma has_duplicates_false {K : Type}
  (eq_dec : forall a b : K, {a = b} + {a <> b}) (ks : list K) :
  has_duplicates eq_dec ks = false <-> NoDup ks.
Proof.
  induction ks as [ | k r IH ]; simpl.
  - split; [ constructor | reflexivity ].
  - destruct (in_dec eq_dec k r) as [Hin | Hnin].
    + split; [ discriminate | ]. intros H. inversion H. contradiction.
    + rewrite IH. split.
      * intros H. now constructor.
      * intros H. now inversion H.
Qed.

Lemma has_duplicates_true {K : Type}
  (eq_dec : forall a b : K, {a = b} + {a <> b}) (ks : list K) :
  ~ NoDup ks -> has_duplicates eq_dec ks = true.
Proof.
  intros H. destruct (has_duplicates eq_dec ks) eqn:E; [ reflexivity | ].
  exfalso. apply H. now apply (has_duplicates_false eq_dec).
Qed.

(** [verify_integrity=True]: duplicate keys raise ... *)
Lemma set_index_duplicate {R K : Type}
  (eq_dec : forall a b : K, {a = b} + {a <> b})
  (key : R -> K) (body : R -> list value) (cols : list string) (rs : list R) :
  ~ NoDup (map key rs) -> set_index eq_dec key body cols rs = Raise ValueError.
Proof.
  intros H. unfold set_index. now rewrite has_duplicates_true.
Qed.

(** ... and unique keys give the indexed table, row for row. *)
Lemma set_index_unique {R K : Type}
  (eq_dec : forall a b : K, {a = b} + {a <> b})
  (key : R -> K) (body : R -> list value) (cols : list string) (rs : list R) :
  NoDup (map key rs) ->
  set_index eq_dec key body cols rs
  = Ok (mk_indexed cols (map (fun r => (key r, body r)) rs)).
Proof.
  intros H. unfold set_index.
  now rewrite (proj2 (has_duplicates_false eq_dec _) H).
Qed.

Lemma set_index_error {R K : Type}
  (eq_dec : forall a b : K, {a = b} + {a <> b})
  (key : R -> K) (body : R -> list value) (cols : list string) (rs : list R)
  (e : error) :
  set_index eq_dec key body cols rs = Raise e -> e = ValueError.
Proof.
  unfold set_index. destruct (has_duplicates eq_dec (map key rs)).
  - intros H. injection H as <-. reflexivity.
  - discriminate.
Qed.

Lemma join_step_error (data : indexed visit_key) (a : aux) (e : error) :
  join_step data a = Raise e -> e = ValueError.
Proof.
  destruct a as [ t | t ]; simpl; [ discriminate | ].
  unfold join_left.
  destruct (existsb _ _); [ | discriminate ].
  intros H. injection H as <-. reflexivity.
Qed.

(** The import phase dies of nothing but [ValueError]. *)
Lemma import_and_join_error (src : sources) (e : error) :
  import_and_join src = Raise e -> e = ValueError.
Proof.
  unfold import_and_join, load_visits, load_demo, load_fam, load_tom, bind.
  repeat match goal with
         | |- match ?m with inl _ => _ | inr _ => _ end = _ -> _ =>
             let E := fresh "E" in
             destruct m eqn:E;
             [ intros H; injection H as <-;
               first [ eapply set_index_error; eassumption
                     | eapply join_step_error; eassumption ] | ]
         end.
  apply join_step_error.
Qed.

(** Two rows of the same key, one after the other in a list, make the list of
    keys repeat an entry. *)
Lemma repeated_key_not_NoDup {R K : Type} (key : R -> K)
  (pre mid post : list R) (r1 r2 : R) :
  key r1 = key r2 -> ~ NoDup (map key (pre ++ r1 :: mid ++ r2 :: post)).
Proof.
  intros E H. rewrite map_app in H. simpl in H.
  apply NoDup_remove_2 in H. apply H.
  apply in_or_app. right. rewrite map_app. apply in_or_app. right.
  left. symmetry. exact E.
Qed.

Lemma select_screening_app (a b : list visit_row) :
  select_screening (a ++ b) = select_screening a ++ select_screening b.
Proof.
  apply filter_app.
Qed.

Ltac next_step E :=
  match type of E with
  | match ?m with inl _ => _ | inr _ => _ end = _ =>
      let Em := fresh "Em" in
      destruct m eqn:Em; [ discriminate E | ]
  end.

(** C9: every [set_index(..., verify_integrity=True)] of the script raises
    when the keys it is given repeat -- the primary and the ADAS table on
    (RID, VISCODE), family history (after the screening filter) and TOMM40
    on RID, demographics on RID after the selection -- and the raised error
    ends the import; in particular two screening rows of one subject in
    FHQ.csv abort the run. *)
Theorem duplicate_keys_abort_the_run :
  (forall (R K : Type) (eq_dec : forall a b : K, {a = b} + {a <> b})
          (key : R -> K) (body : R -> list value) cols rs,
      ~ NoDup (map key rs) ->
      set_index eq_dec key body cols rs = Raise ValueError)
  /\ (forall cols rs,
        ~ NoDup (map (fun r => (RID r, VISCODE r)) rs) ->
        load_visits cols rs = Raise ValueError)
  /\ (forall cols rs,
        ~ NoDup (map RID (select_screening rs)) ->
        load_fam cols rs = Raise ValueError)
  /\ (forall cols rs,
        ~ NoDup (map subj_RID rs) -> load_tom cols rs = Raise ValueError)
  /\ (forall cols rs,
        load_demo cols rs
        = set_index Z.eq_dec demo_RID demo_cells cols (select_latest rs))
  /\ (forall cols pre mid post r1 r2,
        VISCODE r1 = "sc" -> VISCODE r2 = "sc" -> RID r1 = RID r2 ->
        load_fam cols (pre ++ r1 :: mid ++ r2 :: post) = Raise ValueError)
  /\ (forall src,
        ~ NoDup (map (fun r => (RID r, VISCODE r)) (tadpole src))
        \/ ~ NoDup (map (fun r => (RID r, VISCODE r)) (adas src))
        \/ ~ NoDup (map demo_RID (select_latest (demo src)))
        \/ ~ NoDup (map RID (select_screening (fam src)))
        \/ ~ NoDup (map subj_RID (tom src)) ->
        import_and_join src = Raise ValueError).
Proof.
  split; [ intros; now apply set_index_duplicate | ].
  split; [ intros; now apply set_index_duplicate | ].
  split; [ intros; now apply set_index_duplicate | ].
  split; [ intros; now apply set_index_duplicate | ].
  split; [ reflexivity | ].
  split.
  - intros cols pre mid post r1 r2 H1 H2 E.
    apply set_index_duplicate.
    rewrite select_screening_app. unfold select_screening at 2.
    simpl filter. rewrite H1. simpl.
    fold (select_screening (mid ++ r2 :: post)).
    rewrite select_screening_app. unfold select_screening at 3.
    simpl filter. rewrite H2. simpl.
    now apply repeated_key_not_NoDup.
  - intros src H.
    destruct (import_and_join src) as [ e | t ] eqn:E.
    + rewrite (import_and_join_error _ _ E). reflexivity.
    + exfalso. unfold import_and_join, bind in E.
      do 8 next_step E.
      unfold load_visits, load_demo, load_fam, load_tom in *.
      destruct H as [H | [H | [H | [H | H]]]];
        match goal with
        | H : ~ NoDup (map ?key ?rs),
          H' : set_index ?ed ?key ?b ?c ?rs = inr _ |- _ =>
            rewrite (set_index_duplicate ed key b c rs H) in H';
            discriminate H'
        end.
Qed.

Lemma duplicate_keys_abort_the_run_witness :
  load_fam ["FHQMOM"; "FHQDAD"]
           [ mk_visit 7 "sc" [Str "1"; Str "0"];
             mk_visit 8 "sc" [Str "0"; Str "0"];
             mk_visit 7 "sc" [Str "1"; Str "1"] ]
  = Raise ValueError.
Proof.
  apply (proj1 (proj2 (proj2 (proj2 (proj2 (proj2
           duplicate_keys_abort_the_run)))))
           ["FHQMOM"; "FHQDAD"] []
           [mk_visit 8 "sc" [Str "0"; Str "0"]] []
           (mk_visit 7 "sc" [Str "1"; Str "0"])
           (mk_visit 7 "sc" [Str "1"; Str "1"]));
    reflexivity.
Defined.

(** ** Left joins *)

Lemma filter_key_unique {K X : Type}
  (eq_dec : forall a b : K, {a = b} + {a <> b}) (k : K) (l : list (K * X)) :
  NoDup (map fst l) ->
  (List.length (filter (fun r => if eq_dec k (fst r) then true else false) l)
   <= 1)%nat.
Proof.
  induction l as [ | x l IH ]; simpl; intros H.
  - lia.
  - inversion H as [ | ? ? Hnin Hnd ]; subst.
    destruct (eq_dec k (fst x)) as [E | N].
    + simpl. assert (Hnil : filter (fun r => if eq_dec k (fst r) then true
                                             else false) l = []).
      { destruct (filter _ l) as [ | y ys ] eqn:F; [ reflexivity | ].
        exfalso. apply Hnin.
        assert (Hy : In y (filter (fun r => if eq_dec k (fst r) then true
                                            else false) l))
          by (rewrite F; now left).
        apply filter_In in Hy as [Hy Ek].
        destruct (eq_dec k (fst y)) as [Ey | ]; [ | discriminate ].
        rewrite <- E, Ey. now apply in_map. }
      rewrite Hnil. simpl. lia.
    + auto.
Qed.

(** With a unique right index, a left join extends every left row in place:
    by the cells of its one match, or by missing values. *)
Lemma join_rows_unique {K K' : Type}
  (eq_dec : forall a b : K', {a = b} + {a <> b}) (proj : K -> K') (w : nat)
  (left : list (K * list value)) (right : list (K' * list value)) :
  NoDup (map fst right) ->
  join_rows eq_dec proj w left right
  = map (fun l =>
           (fst l,
            snd l ++ match map snd (filter (fun r => if eq_dec (proj (fst l)) (fst r)
                                                     then true else false) right) with
                     | [] => repeat NaN w
                     | m :: _ => m
                     end)) left.
Proof.
  intros H. unfold join_rows.
  match goal with |- flat_map ?f0 _ = _ => set (f := f0) end.
  induction left as [ | l left IH ].
  - reflexivity.
  - change (flat_map f (l :: left)) with (f l ++ flat_map f left).
    rewrite IH. clear IH. unfold f. cbn [map].
    pose proof (filter_key_unique eq_dec (proj (fst l)) right H) as Hle.
    destruct (filter _ right) as [ | m [ | m' ms ] ]; simpl in *;
      try reflexivity; lia.
Qed.

Lemma join_step_rows (data data' : indexed visit_key) (a : aux) :
  unique_index a ->
  join_step data a = Ok data' ->
  rows data' = map (fun l => (fst l, snd l ++ joined_cells (fst l) a)) (rows data).
Proof.
  destruct a as [ t | t ]; simpl; intros U E.
  - injection E as <-. simpl. now rewrite join_rows_unique.
  - unfold join_left in E. destruct (existsb _ _); [ discriminate | ].
    injection E as <-. simpl. now rewrite join_rows_unique.
Qed.

Lemma join_all_rows (auxs : list aux) :
  Forall unique_index auxs ->
  forall data data',
    join_all data auxs = Ok data' ->
    rows data'
    = map (fun l => (fst l, snd l ++ List.concat (map (joined_cells (fst l)) auxs)))
          (rows data).
Proof.
  unfold join_all.
  induction auxs as [ | a auxs IH ]; intros U data data' E.
  - injection E as <-. simpl. rewrite <- (map_id (rows data)) at 1.
    apply map_ext. intros [k cs]. simpl. now rewrite app_nil_r.
  - inversion U as [ | ? ? Ua Us ]; subst. simpl in E.
    destruct (join_step data a) as [ e | mid ] eqn:J; [ discriminate | ].
    simpl in E. rewrite (IH Us _ _ E), (join_step_rows _ _ _ Ua J), map_map.
    apply map_ext. intros [k cs]. simpl. now rewrite app_assoc.
Qed.

Lemma join_all_app (pre post : list aux) (data data' : indexed visit_key) :
  join_all data (pre ++ post) = Ok data' ->
  exists mid, join_all data pre = Ok mid /\ join_all mid post = Ok data'.
Proof.
  unfold join_all. revert data.
  induction pre as [ | a pre IH ]; intros data E.
  - exists data. split; [ reflexivity | exact E ].
  - simpl in E |- *. destruct (join_step data a) as [ e | d1 ]; [ discriminate | ].
    simpl in E |- *. now apply IH.
Qed.

(** [data.join] goes through when no column name is on both sides; the
    [pd.merge] of line 38 always does. *)
Lemma join_left_total (data : indexed visit_key) (other : indexed Z) :
  (forall c, In c (columns data) -> ~ In c (columns other)) ->
  exists data', join_left data other = Ok data'.
Proof.
  intros H. unfold join_left.
  destruct (existsb _ (columns data)) eqn:E.
  - apply existsb_exists in E as [c [Hc Hm]]. exfalso.
    unfold mem_string in Hm.
    destruct (in_dec string_dec c (columns other)); [ | discriminate ].
    now apply (H c).
  - eexists. reflexivity.
Qed.

Lemma merge_left_columns (data other : indexed visit_key) :
  (forall c, In c (columns data) -> ~ In c (columns other)) ->
  columns (merge_left data other) = columns data ++ columns other.
Proof.
  intros H. unfold merge_left. simpl. f_equal.
  - transitivity (map (fun c : string => c) (columns data)); [ | apply map_id ].
    apply map_ext_in. intros c Hc.
    destruct (mem_string c (columns other)) eqn:M; [ | reflexivity ].
    apply mem_string_iff in M. now apply H in Hc.
  - transitivity (map (fun c : string => c) (columns other)); [ | apply map_id ].
    apply map_ext_in. intros c Hc.
    destruct (mem_string c (columns data)) eqn:M; [ | reflexivity ].
    apply mem_string_iff in M. now apply H in M.
Qed.

(** A sequence of joins runs through when all the column names involved are
    distinct. *)
Lemma join_all_total (auxs : list aux) :
  forall data,
    NoDup (columns data ++ List.concat (map aux_columns auxs)) ->
    exists data', join_all data auxs = Ok data'.
Proof.
  unfold join_all.
  induction auxs as [ | a auxs IH ]; intros data H.
  - exists data. reflexivity.
  - simpl in H. rewrite app_assoc in H.
    assert (Hd : forall c, In c (columns data) -> ~ In c (aux_columns a)).
    { apply NoDup_app_remove_r in H. intros c Hc Hc'.
      revert H Hc Hc'. clear. induction (columns data) as [ | x l IHl ]; simpl.
      - intros _ [].
      - intros H [-> | Hc] Hc'.
        + inversion H as [ | ? ? Hnin _ ]; subst. apply Hnin.
          apply in_or_app. now right.
        + inversion H; subst. now apply IHl. }
    assert (Hs : exists d1, join_step data a = Ok d1
                            /\ columns d1 = columns data ++ aux_columns a).
    { destruct a as [ t | t ]; simpl in *.
      - eexists. split; [ reflexivity | now apply merge_left_columns ].
      - unfold join_left. destruct (existsb _ (columns data)) eqn:X.
        + apply existsb_exists in X as [c [Hc M]].
          apply mem_string_iff in M. now apply Hd in Hc.
        + eexists. split; reflexivity. }
    destruct Hs as [d1 [E1 C1]]. simpl. rewrite E1. simpl.
    apply IH. now rewrite C1.
Qed.

(** C3: through any sequence of left joins with auxiliary tables of unique
    index, the accumulating table keeps its rows -- as many, with the same
    index entries in the same order, after every join of the sequence -- and
    each row is extended, for each auxiliary table, by the cells of its
    match or, without a match, by one missing value per column of that
    table. *)
Theorem left_joins_preserve_rows
  (data data' : indexed visit_key) (auxs : list aux)
  (U : Forall unique_index auxs)
  (E : join_all data auxs = Ok data') :
  List.length (rows data') = List.length (rows data)
  /\ map fst (rows data') = map fst (rows data)
  /\ (forall pre post, auxs = pre ++ post ->
        exists mid, join_all data pre = Ok mid
                    /\ map fst (rows mid) = map fst (rows data))
  /\ (forall i k cs,
        nth_error (rows data) i = Some (k, cs) ->
        nth_error (rows data') i
        = Some (k, cs ++ List.concat (map (joined_cells k) auxs)))
  /\ (forall k a,
        In a auxs -> matching k a = [] ->
        joined_cells k a = repeat NaN (width a)
        /\ List.length (joined_cells k a) = width a
        /\ Forall (fun v => isnull v = true) (joined_cells k a)).
Proof.
  pose proof (join_all_rows auxs U data data' E) as R.
  assert (Hk : forall xs d d',
             Forall unique_index xs -> join_all d xs = Ok d' ->
             map fst (rows d') = map fst (rows d)).
  { intros xs d d' Ux Ex. rewrite (join_all_rows xs Ux d d' Ex), map_map.
    apply map_ext. intros [k cs]. reflexivity. }
  split; [ rewrite R; apply length_map | ].
  split; [ apply (Hk auxs data data' U E) | ].
  split.
  - intros pre post ->. destruct (join_all_app pre post data data' E)
      as [mid [Epre _]].
    exists mid. split; [ exact Epre | ].
    apply (Hk pre data mid); [ | exact Epre ].
    apply Forall_app in U. apply U.
  - split.
    + intros i k cs Hi. rewrite R, nth_error_map, Hi. reflexivity.
    + intros k a _ M. unfold joined_cells. rewrite M.
      split; [ reflexivity | ]. split; [ apply repeat_length | ].
      apply Forall_forall. intros v Hv. apply repeat_spec in Hv. now subst.
Qed.

Lemma left_joins_preserve_rows_witness :
  let data := mk_indexed ["AGE"]
                [ ((1%Z, "bl"), [Str "70"]);
                  ((1%Z, "m06"), [Str "70.5"]);
                  ((2%Z, "bl"), [Str "64"]) ] in
  let scores := mk_indexed ["ADAS_Q1"; "ADAS_Q2"]
                  [ ((1%Z, "m06"), [Str "3"; Str "1"]) ] in
  let hands := mk_indexed ["PTHAND"] [ (2%Z, [Str "Right"]) ] in
  join_all data [ByVisit scores; BySubject hands]
  = Ok (mk_indexed ["AGE"; "ADAS_Q1"; "ADAS_Q2"; "PTHAND"]
          [ ((1%Z, "bl"), [Str "70"; NaN; NaN; NaN]);
            ((1%Z, "m06"), [Str "70.5"; Str "3"; Str "1"; NaN]);
            ((2%Z, "bl"), [Str "64"; NaN; NaN; Str "Right"]) ])
  /\ nth_error (rows (mk_indexed ["AGE"; "ADAS_Q1"; "ADAS_Q2"; "PTHAND"]
          [ ((1%Z, "bl"), [Str "70"; NaN; NaN; NaN]);
            ((1%Z, "m06"), [Str "70.5"; Str "3"; Str "1"; NaN]);
            ((2%Z, "bl"), [Str "64"; NaN; NaN; Str "Right"]) ])) 0
     = Some ((1%Z, "bl"),
             [Str "70"]
             ++ List.concat (map (joined_cells (1%Z, "bl"))
                               [ByVisit scores; BySubject hands])).
Proof.
  intros data scores hands.
  assert (E : join_all data [ByVisit scores; BySubject hands]
              = Ok (mk_indexed ["AGE"; "ADAS_Q1"; "ADAS_Q2"; "PTHAND"]
                      [ ((1%Z, "bl"), [Str "70"; NaN; NaN; NaN]);
                        ((1%Z, "m06"), [Str "70.5"; Str "3"; Str "1"; NaN]);
                        ((2%Z, "bl"), [Str "64"; NaN; NaN; Str "Right"]) ]))
    by reflexivity.
  assert (U : Forall unique_index [ByVisit scores; BySubject hands]).
  { repeat constructor; simpl; intuition. }
  split; [ exact E | ].
  apply (left_joins_preserve_rows data _ _ U E). reflexivity.
Defined.

(** ** The latest record by patient *)

(** A rank is 1 exactly for a value that no value of the group exceeds and
    that occurs once in it. *)
Lemma rank_one_iff (group : list string) (t : string) :
  Qeq_bool (rank_desc group t) 1%Q = true
  <-> List.length (filter (fun u => ts_gtb u t) group) = 0%nat
      /\ List.length (filter (String.eqb t) group) = 1%nat.
Proof.
  rewrite Qeq_bool_iff. unfold rank_desc.
  set (g := List.length (filter (fun u => ts_gtb u t) group)).
  set (e := List.length (filter (String.eqb t) group)).
  unfold Qeq, Qplus, Qdiv, Qmult, Qinv, inject_Z. simpl. lia.
Qed.

Lemma ts_gtb_antisym (a b : string) :
  ts_gtb a b = false -> ts_gtb b a = false -> a = b.
Proof.
  unfold ts_gtb. rewrite (String.compare_antisym b a).
  destruct (String.compare a b) eqn:C; simpl; try discriminate.
  intros _ _. now apply String.compare_eq_iff.
Qed.

Lemma filter_nil_length {X : Type} (f : X -> bool) (l : list X) :
  List.length (filter f l) = 0%nat -> forall x, In x l -> f x = false.
Proof.
  intros H x Hx. destruct (f x) eqn:E; [ | reflexivity ].
  assert (Hin : In x (filter f l)) by (apply filter_In; auto).
  destruct (filter f l); [ destruct Hin | discriminate ].
Qed.

Lemma filter_all_false {X : Type} (f : X -> bool) (l : list X) :
  (forall x, In x l -> f x = false) -> filter f l = [].
Proof.
  induction l as [ | x l IH ]; simpl; intros H.
  - reflexivity.
  - rewrite (H x (or_introl eq_refl)). auto.
Qed.

Lemma filter_and {X : Type} (p q : X -> bool) (l : list X) :
  filter p (filter q l) = filter (fun x => p x && q x) l.
Proof.
  induction l as [ | x l IH ]; simpl.
  - reflexivity.
  - destruct (q x); simpl.
    + rewrite andb_true_r. destruct (p x); now rewrite IH.
    + now rewrite andb_false_r.
Qed.

Lemma group_dates_In (rid : Z) (rs : list demo_row) (r : demo_row) (t : string) :
  In r rs -> demo_RID r = rid -> USERDATE r = Some t ->
  In t (group_dates rid rs).
Proof.
  intros Hin Hr Ht. unfold group_dates. apply in_flat_map.
  exists r. split; [ exact Hin | ].
  rewrite Hr, Z.eqb_refl, Ht. now left.
Qed.

(** As many rows of the subject carry the date [t] as the group holds [t]. *)
Lemma count_date (rid : Z) (t : string) (rs : list demo_row) :
  List.length (filter (String.eqb t) (group_dates rid rs))
  = List.length (filter (fun r => Z.eqb (demo_RID r) rid && date_is t r) rs).
Proof.
  unfold group_dates.
  induction rs as [ | r rs IH ].
  - reflexivity.
  - cbn [flat_map filter]. rewrite filter_app, length_app, IH.
    unfold date_is.
    destruct (Z.eqb (demo_RID r) rid); [ | reflexivity ].
    destruct (USERDATE r) as [ u | ]; [ | reflexivity ].
    simpl. destruct (String.eqb t u); reflexivity.
Qed.

(** The rank test of line 67 on a row of subject [rid], when [t] is the
    greatest date of the subject and one row only carries it: the row is
    kept exactly when it is that row. *)
Lemma keep_iff_latest (rs : list demo_row) (rid : Z) (t : string) (r : demo_row) :
  List.length (filter (String.eqb t) (group_dates rid rs)) = 1%nat ->
  (forall u, In u (group_dates rid rs) -> ts_gtb u t = false) ->
  In r rs -> demo_RID r = rid ->
  match RNK rs r with
  | Some q => Qeq_bool q 1%Q
  | None => false
  end = date_is t r.
Proof.
  intros H1 Hmax Hin Hr. unfold RNK, date_is.
  destruct (USERDATE r) as [ u | ] eqn:Eu; [ | reflexivity ].
  rewrite Hr.
  destruct (String.eqb_spec t u) as [<- | N].
  - apply rank_one_iff. split; [ | exact H1 ].
    now rewrite (filter_all_false _ _ Hmax).
  - destruct (Qeq_bool _ _) eqn:Q; [ | reflexivity ].
    exfalso. apply rank_one_iff in Q as [G _]. apply N.
    assert (Ht : In t (group_dates rid rs)).
    { destruct (filter (String.eqb t) (group_dates rid rs)) as [ | x l ] eqn:F;
        [ discriminate | ].
      assert (Hx : In x (filter (String.eqb t) (group_dates rid rs)))
        by (rewrite F; now left).
      apply filter_In in Hx as [Hx Ex]. apply String.eqb_eq in Ex. now subst. }
    apply ts_gtb_antisym.
    + exact (filter_nil_length _ _ G t Ht).
    + apply Hmax. eapply group_dates_In; eassumption.
Qed.

(** When one row alone carries the greatest date of a subject, the selection
    keeps that row of the subject and no other. *)
Lemma select_latest_unique_max (rs : list demo_row) (rid : Z) (t : string) :
  List.length (filter (String.eqb t) (group_dates rid rs)) = 1%nat ->
  (forall u, In u (group_dates rid rs) -> ts_gtb u t = false) ->
  exists r, of_subject rid (select_latest rs) = [r]
            /\ In r rs /\ demo_RID r = rid /\ USERDATE r = Some t.
Proof.
  intros H1 Hmax.
  assert (E : of_subject rid (select_latest rs)
              = filter (fun r => Z.eqb (demo_RID r) rid && date_is t r) rs).
  { unfold of_subject, select_latest. rewrite filter_and.
    apply filter_ext_in. intros r Hin.
    destruct (Z.eqb_spec (demo_RID r) rid) as [Hr | ]; [ | reflexivity ].
    simpl. now apply (keep_iff_latest rs rid). }
  rewrite E. rewrite count_date in H1.
  destruct (filter _ rs) as [ | r [ | r' l ] ] eqn:F; try discriminate.
  exists r. split; [ reflexivity | ].
  assert (Hr : In r (filter (fun r => Z.eqb (demo_RID r) rid && date_is t r) rs))
    by (rewrite F; now left).
  apply filter_In in Hr as [Hin Hc]. apply andb_true_iff in Hc as [Hc1 Hc2].
  split; [ exact Hin | ]. split; [ now apply Z.eqb_eq | ].
  unfold date_is in Hc2. destruct (USERDATE r) as [ u | ]; [ | discriminate ].
  apply String.eqb_eq in Hc2. now subst.
Qed.

(** When two or more rows carry the greatest date of a subject, the
    selection keeps no row of that subject. *)
Lemma select_latest_tie (rs : list demo_row) (rid : Z) (t : string) :
  (2 <= List.length (filter (String.eqb t) (group_dates rid rs)))%nat ->
  (forall u, In u (group_dates rid rs) -> ts_gtb u t = false) ->
  of_subject rid (select_latest rs) = [].
Proof.
  intros H2 Hmax. unfold of_subject, select_latest. rewrite filter_and.
  apply filter_all_false. intros r Hin.
  destruct (Z.eqb_spec (demo_RID r) rid) as [Hr | ]; [ simpl | reflexivity ].
  unfold RNK. destruct (USERDATE r) as [ u | ] eqn:Eu; [ | reflexivity ].
  rewrite Hr. destruct (Qeq_bool _ _) eqn:Q; [ | reflexivity ].
  exfalso. apply rank_one_iff in Q as [G E1].
  assert (Ht : In t (group_dates rid rs)).
  { destruct (filter (String.eqb t) (group_dates rid rs)) as [ | x l ] eqn:F;
      [ simpl in H2; lia | ].
    assert (Hx : In x (filter (String.eqb t) (group_dates rid rs)))
      by (rewrite F; now left).
    apply filter_In in Hx as [Hx Ex]. apply String.eqb_eq in Ex. now subst. }
  assert (u = t).
  { apply ts_gtb_antisym.
    - apply Hmax. eapply group_dates_In; eassumption.
    - exact (filter_nil_length _ _ G t Ht). }
  subst u. lia.
Qed.

Lemma NoDup_by_count {X : Type} (key : X -> Z) (l : list X) :
  (forall k, (List.length (filter (fun x => Z.eqb (key x) k) l) <= 1)%nat) ->
  NoDup (map key l).
Proof.
  induction l as [ | x l IH ]; intros H; simpl.
  - constructor.
  - constructor.
    + intros Hin. apply in_map_iff in Hin as [y [Ey Hy]].
      specialize (H (key x)). simpl in H. rewrite Z.eqb_refl in H. simpl in H.
      assert (Hy' : In y (filter (fun z => Z.eqb (key z) (key x)) l)).
      { apply filter_In. split; [ exact Hy | ]. now apply Z.eqb_eq. }
      destruct (filter _ l); [ destruct Hy' | simpl in H; lia ].
    + apply IH. intros k. specialize (H k). simpl in H.
      destruct (Z.eqb (key x) k); simpl in H; lia.
Qed.

(** The selection never keeps two rows of one subject, so the check of
    line 70 always passes. *)
Lemma select_latest_NoDup (rs : list demo_row) :
  NoDup (map demo_RID (select_latest rs)).
Proof.
  apply NoDup_by_count. intros rid.
  fold (of_subject rid (select_latest rs)).
  destruct (of_subject rid (select_latest rs)) as [ | r l ] eqn:F;
    [ simpl; lia | ].
  assert (Hr : In r (of_subject rid (select_latest rs)))
    by (rewrite F; now left).
  unfold of_subject, select_latest in Hr.
  apply filter_In in Hr as [Hr Hrid]. apply filter_In in Hr as [Hin Hk].
  apply Z.eqb_eq in Hrid.
  unfold RNK in Hk. destruct (USERDATE r) as [ t | ]; [ | discriminate ].
  rewrite Hrid in Hk. apply rank_one_iff in Hk as [G E1].
  destruct (select_latest_unique_max rs rid t E1 (filter_nil_length _ _ G))
    as [r' [E' _]].
  rewrite <- F, E'. simpl. lia.
Qed.

Lemma load_demo_total (cols : list string) (rs : list demo_row) :
  load_demo cols rs
  = Ok (mk_indexed cols
          (map (fun r => (demo_RID r, demo_cells r)) (select_latest rs))).
Proof.
  apply set_index_unique, select_latest_NoDup.
Qed.

(** C2, at a failing input: subject 1 has two rows with the same, greatest
    [USERDATE].  Line 53 ranks with the default [method='average'], both
    rows get the rank 1.5, the test [RNK == 1] of line 67 keeps neither, and
    the output has no row for subject 1 -- where the first of the two should
    have been kept.  Subject 2, whose latest row is alone, gets that row. *)
Theorem latest_record_tie_drops_subject :
  let rs := [ mk_demo 1 (Some "2006-03-01") [Str "Right"];
              mk_demo 1 (Some "2006-03-01") [Str "Left"];
              mk_demo 1 (Some "2005-01-15") [Str "Right"];
              mk_demo 2 (Some "2005-09-09") [Str "Left"];
              mk_demo 2 (Some "2007-02-20") [Str "Right"] ] in
  map (fun r => option_map Qred (RNK rs r)) rs
  = [ Some (3 # 2); Some (3 # 2); Some (3 # 1); Some (2 # 1); Some (1 # 1) ]%Q
  /\ select_latest rs = [ mk_demo 2 (Some "2007-02-20") [Str "Right"] ]
  /\ of_subject 1 (select_latest rs) = []
  /\ load_demo ["PTHAND"] rs = Ok (mk_indexed ["PTHAND"] [ (2%Z, [Str "Right"]) ]).
Proof.
  repeat split; vm_compute; reflexivity.
Qed.

(** ** Distinct values and sorting *)

Lemma unique_In {A : Type} (eq_dec : forall a b : A, {a = b} + {a <> b})
  (l : list A) (x : A) :
  In x (unique eq_dec l) <-> In x l.
Proof.
  induction l as [ | y l IH ]; simpl.
  - reflexivity.
  - rewrite filter_In, IH. unfold eqb_of.
    destruct (eq_dec y x) as [-> | N]; simpl.
    + split; auto.
    + split.
      * intros [H | [H _]]; auto.
      * intros [H | H]; [ contradiction | auto ].
Qed.

Lemma NoDup_filter {A : Type} (f : A -> bool) (l : list A) :
  NoDup l -> NoDup (filter f l).
Proof.
  induction 1 as [ | x l Hnin Hnd IH ]; simpl.
  - constructor.
  - destruct (f x); [ | exact IH ].
    constructor; [ | exact IH ].
    intros H. apply filter_In in H. now apply Hnin.
Qed.

Lemma unique_NoDup {A : Type} (eq_dec : forall a b : A, {a = b} + {a <> b})
  (l : list A) :
  NoDup (unique eq_dec l).
Proof.
  induction l as [ | y l IH ]; simpl.
  - constructor.
  - constructor.
    + intros H. apply filter_In in H as [_ H]. unfold eqb_of in H.
      destruct (eq_dec y y); [ discriminate | contradiction ].
    + now apply NoDup_filter.
Qed.

Lemma filter_true {A : Type} (l : list A) : filter (fun _ => true) l = l.
Proof.
  induction l as [ | y l IH ]; simpl; congruence.
Qed.

(** A list without repetition is its own list of distinct values. *)
Lemma unique_of_NoDup {A : Type} (eq_dec : forall a b : A, {a = b} + {a <> b})
  (l : list A) :
  NoDup l -> unique eq_dec l = l.
Proof.
  induction 1 as [ | x l Hnin Hnd IH ]; simpl.
  - reflexivity.
  - rewrite IH. f_equal.
    rewrite <- (filter_ext_in (fun _ => true)).
    + apply filter_true.
    + intros y Hy. unfold eqb_of.
      destruct (eq_dec x y) as [-> | ]; [ contradiction | reflexivity ].
Qed.

Lemma insert_Permutation {A : Type} (before : A -> A -> bool) (x : A) (l : list A) :
  Permutation (insert before x l) (x :: l).
Proof.
  induction l as [ | y l IH ]; simpl.
  - apply Permutation_refl.
  - destruct (before y x).
    + eapply perm_trans; [ apply perm_skip, IH | apply perm_swap ].
    + apply Permutation_refl.
Qed.

Lemma isort_Permutation {A : Type} (before : A -> A -> bool) (l : list A) :
  Permutation (isort before l) l.
Proof.
  induction l as [ | x l IH ]; simpl.
  - apply perm_nil.
  - eapply perm_trans; [ apply insert_Permutation | now apply perm_skip ].
Qed.

Section DummiesFacts.

Context {A : Type}.
Variable eq_dec : forall a b : A, {a = b} + {a <> b}.
Variable leb : A -> A -> bool.
Variable render : A -> string.

Lemma levels_NoDup (col : list (option A)) : NoDup (levels eq_dec leb col).
Proof.
  unfold levels.
  eapply Permutation_NoDup;
    [ apply Permutation_sym, isort_Permutation | apply unique_NoDup ].
Qed.

Lemma levels_In (col : list (option A)) (a : A) :
  In a (levels eq_dec leb col) <-> In (Some a) col.
Proof.
  unfold levels. split.
  - intros H.
    apply (Permutation_in _ (isort_Permutation _ _)) in H.
    apply unique_In in H. apply in_flat_map in H as [v [Hv Ha]].
    destruct v as [ b | ]; [ | destruct Ha ].
    destruct Ha as [-> | []]. exact Hv.
  - intros H.
    apply (Permutation_in _ (Permutation_sym (isort_Permutation _ _))).
    apply unique_In. apply in_flat_map. exists (Some a). split; [ exact H | ].
    now left.
Qed.

(** The entry of an indicator column in row [i]. *)
Lemma indicator_nth (l : A) (col : list (option A)) (i : nat) :
  nth i (indicator eq_dec l col) 0%nat
  = match nth i col None with
    | Some a => if eq_dec a l then 1%nat else 0%nat
    | None => 0%nat
    end.
Proof.
  unfold indicator. revert i.
  induction col as [ | v col IH ]; intros [ | i ]; simpl; auto.
Qed.

Lemma sum_of_tests (a : A) (ls : list A) :
  NoDup ls ->
  list_sum (map (fun l => if eq_dec a l then 1%nat else 0%nat) ls)
  = if in_dec eq_dec a ls then 1%nat else 0%nat.
Proof.
  induction 1 as [ | x ls Hnin Hnd IH ]; simpl.
  - reflexivity.
  - rewrite IH.
    destruct (eq_dec a x) as [-> | N].
    + destruct (eq_dec x x) as [ E | C ]; [ | contradiction ].
      destruct (in_dec eq_dec x ls); [ contradiction | reflexivity ].
    + destruct (eq_dec x a) as [ E | N' ]; [ congruence | ].
      destruct (in_dec eq_dec a ls); reflexivity.
Qed.

(** The sum of the indicators of a row: 1 when the row holds a category
    other than the first, 0 otherwise. *)
Lemma row_sum_dummies (c : string) (col : list (option A)) (i : nat) :
  row_sum (get_dummies eq_dec leb render c col) i
  = match nth i col None with
    | Some a => if in_dec eq_dec a (tl (levels eq_dec leb col))
                then 1%nat else 0%nat
    | None => 0%nat
    end.
Proof.
  unfold row_sum, get_dummies. rewrite map_map. cbn [snd].
  rewrite (map_ext _ _ (fun l => indicator_nth l col i)).
  destruct (nth i col None) as [ a | ].
  - apply sum_of_tests.
    pose proof (levels_NoDup col) as H.
    destruct (levels eq_dec leb col); [ constructor | now inversion H ].
  - induction (tl (levels eq_dec leb col)); simpl; auto.
Qed.

End DummiesFacts.



(** ** Frequencies and the grouping of the smaller levels *)

Section SortFacts.

Context {A : Type}.
Variable before : A -> A -> bool.
Variable R : A -> A -> Prop.
Hypothesis before_true : forall x y, before y x = true -> R y x.
Hypothesis before_false : forall x y, before y x = false -> R x y.
Hypothesis R_trans : forall x y z, R x y -> R y z -> R x z.

Lemma insert_sorted (x : A) (l : list A) :
  StronglySorted R l -> StronglySorted R (insert before x l).
Proof.
  induction 1 as [ | y l Hs IH Hy ]; simpl.
  - repeat constructor.
  - destruct (before y x) eqn:B.
    + constructor; [ exact IH | ].
      apply Forall_forall. intros z Hz.
      apply (Permutation_in _ (insert_Permutation before x l)) in Hz.
      destruct Hz as [<- | Hz]; [ now apply before_true | ].
      rewrite Forall_forall in Hy. now apply Hy.
    + constructor; [ now constructor | ].
      constructor; [ now apply before_false | ].
      apply Forall_forall. intros z Hz. rewrite Forall_forall in Hy.
      apply (R_trans x y z); [ now apply before_false | now apply Hy ].
Qed.

Lemma isort_sorted (l : list A) : StronglySorted R (isort before l).
Proof.
  induction l as [ | x l IH ]; simpl.
  - constructor.
  - now apply insert_sorted.
Qed.

End SortFacts.

(** In a sorted list every element of a front part is related to every
    element of the rest. *)
Lemma sorted_firstn_skipn {A : Type} (R : A -> A -> Prop) (n : nat) (l : list A) :
  StronglySorted R l ->
  forall a b, In a (firstn n l) -> In b (skipn n l) -> R a b.
Proof.
  intros H. revert n.
  induction H as [ | x l Hs IH Hx ]; intros n a b Ha Hb.
  - rewrite firstn_nil in Ha. destruct Ha.
  - destruct n as [ | n ]; simpl in Ha, Hb; [ destruct Ha | ].
    destruct Ha as [<- | Ha].
    + rewrite Forall_forall in Hx. apply Hx.
      rewrite <- (firstn_skipn n l). apply in_or_app. now right.
    + now apply (IH n).
Qed.

Lemma py_in_iff (x : value) (l : list value) : py_in x l = true <-> In x l.
Proof.
  unfold py_in. rewrite existsb_exists. unfold eqb_of. split.
  - intros [y [Hy E]]. destruct (value_eq_dec x y); [ now subst | discriminate ].
  - intros H. exists x. split; [ exact H | ].
    destruct (value_eq_dec x x); [ reflexivity | contradiction ].
Qed.

Lemma value_counts_Permutation (col : list value) :
  Permutation (value_counts col)
              (map (fun v => (v, count_occ value_eq_dec col v))
                   (distinct_values col)).
Proof.
  apply isort_Permutation.
Qed.

Lemma value_counts_index (col : list value) :
  Permutation (map fst (value_counts col)) (distinct_values col).
Proof.
  eapply perm_trans; [ apply Permutation_map, value_counts_Permutation | ].
  rewrite map_map. simpl. rewrite map_id. apply Permutation_refl.
Qed.

Lemma value_counts_count (col : list value) (v : value) (n : nat) :
  In (v, n) (value_counts col) -> n = count_occ value_eq_dec col v.
Proof.
  intros H. apply (Permutation_in _ (value_counts_Permutation col)) in H.
  apply in_map_iff in H as [w [E _]]. now injection E as <- <-.
Qed.

Lemma value_counts_sorted (col : list value) :
  StronglySorted (fun a b : value * nat => (snd b <= snd a)%nat)
                 (value_counts col).
Proof.
  apply isort_sorted.
  - intros x y H. apply Nat.ltb_lt in H. lia.
  - intros x y H. apply Nat.ltb_ge in H. exact H.
  - intros x y z. lia.
Qed.

Lemma distinct_values_In (col : list value) (v : value) :
  In v (distinct_values col) <-> In v col /\ isnull v = false.
Proof.
  unfold distinct_values. rewrite unique_In, filter_In, negb_true_iff.
  reflexivity.
Qed.

Lemma top_levels_NoDup (col : list value) : NoDup (top_levels col).
Proof.
  unfold top_levels.
  assert (H : NoDup (map fst (value_counts col))).
  { eapply Permutation_NoDup;
      [ apply Permutation_sym, value_counts_index | apply unique_NoDup ]. }
  rewrite <- (firstn_skipn 30 (map fst (value_counts col))) in H.
  now apply NoDup_app_remove_r in H.
Qed.

Lemma top_levels_In (col : list value) (k : value) :
  In k (top_levels col) -> In k col /\ isnull k = false.
Proof.
  intros H. apply distinct_values_In.
  apply (Permutation_in _ (value_counts_index col)).
  unfold top_levels in H.
  rewrite <- (firstn_skipn 30 (map fst (value_counts col))).
  apply in_or_app. now left.
Qed.

Lemma top_levels_length (col : list value) :
  List.length (top_levels col) = Nat.min 30 (List.length (distinct_values col)).
Proof.
  unfold top_levels. rewrite length_firstn.
  now rewrite (Permutation_length (value_counts_index col)).
Qed.

(** No value left out of the kept levels is more frequent than a kept one. *)
Lemma top_levels_most_frequent (col : list value) (k v : value) :
  In k (top_levels col) -> In v col -> isnull v = false ->
  ~ In v (top_levels col) ->
  (count_occ value_eq_dec col v <= count_occ value_eq_dec col k)%nat.
Proof.
  unfold top_levels. rewrite firstn_map. intros Hk Hv Hn Hnk.
  apply in_map_iff in Hk as [[k' nk] [Ek Hk]]. simpl in Ek. subst k'.
  assert (Hv' : In v (map fst (value_counts col))).
  { apply (Permutation_in _ (Permutation_sym (value_counts_index col))).
    now apply distinct_values_In. }
  rewrite <- (firstn_skipn 30 (value_counts col)), map_app in Hv'.
  apply in_app_or in Hv' as [Hv' | Hv']; [ contradiction | ].
  apply in_map_iff in Hv' as [[v' nv] [Ev Hv']]. simpl in Ev. subst v'.
  pose proof (sorted_firstn_skipn _ 30 _ (value_counts_sorted col)
                _ _ Hk Hv') as Hle.
  simpl in Hle.
  assert (Hk' : In (k, nk) (value_counts col)).
  { rewrite <- (firstn_skipn 30 (value_counts col)). apply in_or_app. now left. }
  assert (Hv'' : In (v, nv) (value_counts col)).
  { rewrite <- (firstn_skipn 30 (value_counts col)). apply in_or_app. now right. }
  rewrite <- (value_counts_count _ _ _ Hk'), <- (value_counts_count _ _ _ Hv'').
  exact Hle.
Qed.

(** C5: lines 200-201 on the cleaned column.  The kept levels are the first
    30 entries of the frequency table -- all the distinct values when there
    are no more than 30 --, none of them missing, none repeated, and no value
    left out is more frequent than a kept one; a cell holding a kept level
    stays as it is and every other cell, a missing one included, becomes
    [other]; so at most 31 distinct values remain, whatever the number of
    distinct values before. *)
Theorem rare_levels_collapse_to_other (col : list value) :
  let kept := top_levels col in
  let out := group_smaller_levels col in
  List.length kept = Nat.min 30 (List.length (distinct_values col))
  /\ NoDup kept
  /\ (forall k, In k kept -> In k col /\ isnull k = false)
  /\ (forall k v, In k kept -> In v col -> isnull v = false -> ~ In v kept ->
                  (count_occ value_eq_dec col v
                   <= count_occ value_eq_dec col k)%nat)
  /\ List.length out = List.length col
  /\ (forall i x, nth_error col i = Some x -> In x kept ->
                  nth_error out i = Some x)
  /\ (forall i x, nth_error col i = Some x -> ~ In x kept ->
                  nth_error out i = Some (Str "other"))
  /\ (List.length (distinct_values out) <= 31)%nat
  /\ (forall raw, clean_and_group raw = group_smaller_levels (map clean_string raw)).
Proof.
  intros kept out.
  split; [ apply top_levels_length | ].
  split; [ apply top_levels_NoDup | ].
  split; [ apply top_levels_In | ].
  split; [ apply top_levels_most_frequent | ].
  split; [ apply length_map | ].
  split.
  { intros i x Hi Hx. unfold out, group_smaller_levels.
    rewrite nth_error_map, Hi. simpl.
    now rewrite (proj2 (py_in_iff x (top_levels col)) Hx). }
  split.
  { intros i x Hi Hx. unfold out, group_smaller_levels.
    rewrite nth_error_map, Hi. simpl.
    destruct (py_in x (top_levels col)) eqn:P; [ | reflexivity ].
    apply py_in_iff in P. contradiction. }
  split; [ | reflexivity ].
  assert (Hincl : incl (distinct_values out) (Str "other" :: kept)).
  { intros y Hy. apply distinct_values_In in Hy as [Hy _].
    unfold out, group_smaller_levels in Hy.
    apply in_map_iff in Hy as [x [E _]].
    destruct (py_in x (top_levels col)) eqn:P.
    - right. subst y. now apply py_in_iff.
    - left. now symmetry. }
  apply (NoDup_incl_length (unique_NoDup _ _)) in Hincl.
  simpl in Hincl. fold (distinct_values out) in Hincl.
  assert (List.length kept <= 30)%nat
    by (unfold kept; rewrite top_levels_length; lia).
  lia.
Qed.

Lemma rare_levels_collapse_to_other_witness :
  nth_error (group_smaller_levels [Str "a"; NaN; Str "b"; Str "a"]) 3
  = Some (Str "a")
  /\ nth_error (group_smaller_levels [Str "a"; NaN; Str "b"; Str "a"]) 1
     = Some (Str "other").
Proof.
  split.
  - apply (proj1 (proj2 (proj2 (proj2 (proj2 (proj2
             (rare_levels_collapse_to_other
                [Str "a"; NaN; Str "b"; Str "a"])))))) 3%nat (Str "a")).
    + reflexivity.
    + vm_compute. auto.
  - apply (proj1 (proj2 (proj2 (proj2 (proj2 (proj2 (proj2
             (rare_levels_collapse_to_other
                [Str "a"; NaN; Str "b"; Str "a"]))))))) 1%nat NaN).
    + reflexivity.
    + vm_compute. intuition discriminate.
Defined.

(** ** Cleaning and grouping twice *)

Lemma clean_and_group_cleaned (col : list value) :
  map clean_string (clean_and_group col) = clean_and_group col.
Proof.
  unfold clean_and_group, group_smaller_levels. rewrite map_map.
  apply map_ext_in. intros y Hy.
  destruct (py_in y _); [ | reflexivity ].
  apply in_map_iff in Hy as [v [<- _]]. apply clean_string_idempotent.
Qed.

Lemma group_smaller_levels_notnull (col : list value) (x : value) :
  In x (group_smaller_levels col) -> isnull x = false.
Proof.
  unfold group_smaller_levels. intros H.
  apply in_map_iff in H as [y [E _]].
  destruct (py_in y (top_levels col)) eqn:P.
  - subst y. apply py_in_iff in P. now apply top_levels_In in P.
  - now subst x.
Qed.

(** With no more than 30 distinct values, none missing, the grouping keeps
    every cell. *)
Lemma group_smaller_levels_fixed (col : list value) :
  (forall x, In x col -> isnull x = false) ->
  (List.length (distinct_values col) <= 30)%nat ->
  group_smaller_levels col = col.
Proof.
  intros Hn Hle. unfold group_smaller_levels.
  transitivity (map (fun x : value => x) col); [ | apply map_id ].
  apply map_ext_in. intros x Hx.
  assert (P : py_in x (top_levels col) = true); [ | now rewrite P ].
  apply py_in_iff. unfold top_levels. rewrite firstn_all2.
  - apply (Permutation_in _ (Permutation_sym (value_counts_index col))).
    apply distinct_values_In. auto.
  - now rewrite (Permutation_length (value_counts_index col)).
Qed.

(** C6, as the script has it: cleaning the cleaned and grouped column again
    changes nothing, and grouping it again changes nothing either when it
    has no more than 30 distinct values. *)
Theorem clean_and_group_fixed_point (col : list value)
  (H : (List.length (distinct_values (clean_and_group col)) <= 30)%nat) :
  map clean_string (clean_and_group col) = clean_and_group col
  /\ clean_and_group (clean_and_group col) = clean_and_group col.
Proof.
  split; [ apply clean_and_group_cleaned | ].
  unfold clean_and_group at 1. rewrite clean_and_group_cleaned.
  apply group_smaller_levels_fixed; [ | exact H ].
  intros x Hx. unfold clean_and_group in Hx.
  eapply group_smaller_levels_notnull, Hx.
Qed.

Lemma clean_and_group_fixed_point_witness :
  clean_and_group (clean_and_group [Str "Married"; NaN; Str "-4"; Str "N/A"])
  = clean_and_group [Str "Married"; NaN; Str "-4"; Str "N/A"].
Proof.
  apply (clean_and_group_fixed_point
           [Str "Married"; NaN; Str "-4"; Str "N/A"]).
  vm_compute. lia.
Defined.

(** C6 as stated fails on a column with 30 distinct values, the last of them
    seen once, the others twice, and two missing cells.  The first pass
    keeps the 30 values and makes [other] of the two missing cells; the
    column then has 31 distinct values, [l30] is the least frequent of them,
    and a second pass rewrites it to [other]. *)
Lemma clean_and_group_not_fixed_point :
  let col :=
    [ Str "l01"; Str "l01"; Str "l02"; Str "l02"; Str "l03"; Str "l03";
      Str "l04"; Str "l04"; Str "l05"; Str "l05"; Str "l06"; Str "l06";
      Str "l07"; Str "l07"; Str "l08"; Str "l08"; Str "l09"; Str "l09";
      Str "l10"; Str "l10"; Str "l11"; Str "l11"; Str "l12"; Str "l12";
      Str "l13"; Str "l13"; Str "l14"; Str "l14"; Str "l15"; Str "l15";
      Str "l16"; Str "l16"; Str "l17"; Str "l17"; Str "l18"; Str "l18";
      Str "l19"; Str "l19"; Str "l20"; Str "l20"; Str "l21"; Str "l21";
      Str "l22"; Str "l22"; Str "l23"; Str "l23"; Str "l24"; Str "l24";
      Str "l25"; Str "l25"; Str "l26"; Str "l26"; Str "l27"; Str "l27";
      Str "l28"; Str "l28"; Str "l29"; Str "l29"; Str "l30"; NaN; NaN ] in
  nth 58 (clean_and_group col) NaN = Str "l30"
  /\ nth 58 (clean_and_group (clean_and_group col)) NaN = Str "other"
  /\ clean_and_group (clean_and_group col) <> clean_and_group col.
Proof.
  intros col.
  assert (H1 : nth 58 (clean_and_group col) NaN = Str "l30")
    by (vm_compute; reflexivity).
  assert (H2 : nth 58 (clean_and_group (clean_and_group col)) NaN = Str "other")
    by (vm_compute; reflexivity).
  repeat split; try assumption.
  intros E. rewrite E, H1 in H2. discriminate H2.
Qed.

(** ** The import as a whole *)

Lemma set_index_Ok {R K : Type}
  (eq_dec : forall a b : K, {a = b} + {a <> b})
  (key : R -> K) (body : R -> list value) (cols : list string) (rs : list R)
  (t : indexed K) :
  set_index eq_dec key body cols rs = Ok t ->
  NoDup (map fst (rows t)) /\ map fst (rows t) = map key rs.
Proof.
  unfold set_index.
  destruct (has_duplicates eq_dec (map key rs)) eqn:D; [ discriminate | ].
  intros E. injection E as <-. simpl. rewrite map_map. simpl.
  split; [ now apply (has_duplicates_false eq_dec) | reflexivity ].
Qed.

Lemma join_step_index (data data' : indexed visit_key) (a : aux) :
  unique_index a -> join_step data a = Ok data' ->
  map fst (rows data') = map fst (rows data).
Proof.
  intros U E. rewrite (join_step_rows _ _ _ U E), map_map.
  apply map_ext. intros [k cs]. reflexivity.
Qed.

(** In the script every auxiliary table has passed [verify_integrity] before
    its join, so the import, when it runs through, ends with exactly the
    rows of TADPOLE_D1_D2.csv, in their order. *)
Lemma import_and_join_rows (src : sources) (data : indexed visit_key) :
  import_and_join src = Ok data ->
  map fst (rows data) = map (fun r => (RID r, VISCODE r)) (tadpole src).
Proof.
  unfold import_and_join, bind. intros E.
  destruct (load_visits (tadpole_cols src) (tadpole src)) as [ | d0 ] eqn:L0;
    [ discriminate | ].
  destruct (load_visits (adas_cols src) (adas src)) as [ | t1 ] eqn:L1;
    [ discriminate | ].
  destruct (join_step d0 (ByVisit (adas_columns t1))) as [ | d1 ] eqn:J1;
    [ discriminate | ].
  destruct (load_demo (demo_cols src) (demo src)) as [ | t2 ] eqn:L2;
    [ discriminate | ].
  destruct (join_step d1 (BySubject t2)) as [ | d2 ] eqn:J2; [ discriminate | ].
  destruct (load_fam (fam_cols src) (fam src)) as [ | t3 ] eqn:L3;
    [ discriminate | ].
  destruct (join_step d2 (BySubject t3)) as [ | d3 ] eqn:J3; [ discriminate | ].
  destruct (load_tom (tom_cols src) (tom src)) as [ | t4 ] eqn:L4;
    [ discriminate | ].
  apply set_index_Ok in L0 as [_ K0].
  apply set_index_Ok in L1 as [U1 _].
  apply set_index_Ok in L2 as [U2 _].
  apply set_index_Ok in L3 as [U3 _].
  apply set_index_Ok in L4 as [U4 _].
  assert (U1' : unique_index (ByVisit (adas_columns t1))).
  { simpl. rewrite map_map. exact U1. }
  rewrite (join_step_index d3 data (BySubject t4) U4 E).
  rewrite (join_step_index d2 d3 (BySubject t3) U3 J3).
  rewrite (join_step_index d1 d2 (BySubject t2) U2 J2).
  rewrite (join_step_index d0 d1 _ U1' J1).
  exact K0.
Qed.

(** A run of the import and of the encoding of one text column on a small
    input: three visits of three subjects, two demographics rows for the
    first subject, of which the later one is kept. *)
Example import_and_join_small :
  import_and_join
    (mk_sources
       ["AGE"] [ mk_visit 1 "bl" [Str "70"]; mk_visit 2 "bl" [Str "64"];
                 mk_visit 3 "bl" [Str "81"] ]
       [] []
       ["PTHAND"] [ mk_demo 1 (Some "2005-08-18") [Str "Left"];
                    mk_demo 1 (Some "2006-01-30") [Str "Right"];
                    mk_demo 3 (Some "2005-11-02") [Str "Right"] ]
       ["FHQMOM"] [ mk_visit 2 "sc" [Str "1"]; mk_visit 2 "bl" [Str "0"] ]
       ["TOMM40_A1"] [ mk_subject 3 [Str "27"] ])
  = Ok (mk_indexed
          ["AGE"; "PTHAND"; "FHQMOM"; "TOMM40_A1"]
          [ ((1%Z, "bl"), [Str "70"; Str "Right"; NaN; NaN]);
            ((2%Z, "bl"), [Str "64"; NaN; Str "1"; NaN]);
            ((3%Z, "bl"), [Str "81"; Str "Right"; NaN; Str "27"]) ]).
Proof.
  vm_compute. reflexivity.
Qed.

Example encode_text_small :
  encode_text "color" [Str "red"; Str "red"; Str "blue"]
  = [ ("color_red", [1; 1; 0]%nat) ].
Proof.
  reflexivity.
Qed.

(* ================================================================== *)
(** * Further properties of the script *)

(** ** Loading and selection *)

Lemma filter_all_true {X : Type} (f : X -> bool) (l : list X) :
  (forall x, In x l -> f x = true) -> filter f l = l.
Proof.
  induction l as [ | x l IH ]; simpl; intros H.
  - reflexivity.
  - rewrite (H x (or_introl eq_refl)). f_equal. auto.
Qed.

Lemma select_latest_dated (rs : list demo_row) (r : demo_row) :
  In r (select_latest rs) ->
  In r rs
  /\ exists t, USERDATE r = Some t
               /\ forall u, In u (group_dates (demo_RID r) rs) ->
                            ts_gtb u t = false.
Proof.
  unfold select_latest. intros H. apply filter_In in H as [Hin K].
  split; [ exact Hin | ].
  unfold RNK in K. destruct (USERDATE r) as [ t | ]; [ | discriminate ].
  exists t. split; [ reflexivity | ].
  apply rank_one_iff in K as [G _]. exact (filter_nil_length _ _ G).
Qed.

(** X2: the selection of lines 52-67 on a subject whose greatest [USERDATE]
    is carried by one row only: of the rows of that subject, exactly that
    row is kept, and the table that line 70 indexes has the cells of that
    row, and no other, under the subject's RID. *)
Theorem selection_keeps_the_latest_row
  (rs : list demo_row) (rid : Z) (t : string)
  (Hone : List.length (filter (String.eqb t) (group_dates rid rs)) = 1%nat)
  (Hmax : forall u, In u (group_dates rid rs) -> ts_gtb u t = false) :
  exists r,
    of_subject rid (select_latest rs) = [r]
    /\ In r rs /\ demo_RID r = rid /\ USERDATE r = Some t
    /\ forall cols, exists table,
         load_demo cols rs = Ok table
         /\ filter (fun e => Z.eqb (fst e) rid) (rows table)
            = [(rid, demo_cells r)].
Proof.
  destruct (select_latest_unique_max rs rid t Hone Hmax)
    as [r [Hsel [Hin [Hrid Ht]]]].
  exists r. repeat (split; [ assumption | ]).
  intros cols. rewrite load_demo_total. eexists. split; [ reflexivity | ].
  simpl. unfold of_subject in Hsel.
  transitivity (map (fun r0 => (demo_RID r0, demo_cells r0))
                    (filter (fun r0 => Z.eqb (demo_RID r0) rid)
                            (select_latest rs))).
  - generalize (select_latest rs). intros l.
    induction l as [ | x l IH ]; simpl; [ reflexivity | ].
    destruct (Z.eqb (demo_RID x) rid); simpl; now rewrite IH.
  - rewrite Hsel. simpl. now rewrite Hrid.
Qed.

Lemma selection_keeps_the_latest_row_witness :
  exists r,
    of_subject 1 (select_latest
                    [ mk_demo 1 (Some "2005-08-18") [Str "Left"];
                      mk_demo 2 (Some "2007-04-02") [Str "Right"];
                      mk_demo 1 (Some "2006-01-30") [Str "Right"];
                      mk_demo 1 None [NaN] ]) = [r]
    /\ In r [ mk_demo 1 (Some "2005-08-18") [Str "Left"];
              mk_demo 2 (Some "2007-04-02") [Str "Right"];
              mk_demo 1 (Some "2006-01-30") [Str "Right"];
              mk_demo 1 None [NaN] ]
    /\ demo_RID r = 1%Z /\ USERDATE r = Some "2006-01-30".
Proof.
  destruct (selection_keeps_the_latest_row
              [ mk_demo 1 (Some "2005-08-18") [Str "Left"];
                mk_demo 2 (Some "2007-04-02") [Str "Right"];
                mk_demo 1 (Some "2006-01-30") [Str "Right"];
                mk_demo 1 None [NaN] ] 1 "2006-01-30")
    as [r [H1 [H2 [H3 [H4 _]]]]].
  - reflexivity.
  - intros u Hu. vm_compute in Hu.
    destruct Hu as [<- | [<- | []]]; reflexivity.
  - exists r. auto.
Defined.

(** X3: the selection of lines 52-67 never keeps two rows of one subject;
    every row it keeps is a row of the input with a [USERDATE] that no row
    of the same subject exceeds; and so the [verify_integrity] of line 70
    never raises. *)
Theorem selection_one_latest_row_per_subject (rs : list demo_row) :
  NoDup (map demo_RID (select_latest rs))
  /\ (forall r, In r (select_latest rs) ->
        In r rs
        /\ exists t, USERDATE r = Some t
             /\ forall r' t', In r' rs -> demo_RID r' = demo_RID r ->
                              USERDATE r' = Some t' -> ts_gtb t' t = false)
  /\ (forall cols,
        load_demo cols rs
        = Ok (mk_indexed cols
                (map (fun r => (demo_RID r, demo_cells r)) (select_latest rs)))).
Proof.
  split; [ apply select_latest_NoDup | ].
  split; [ | intros cols; apply load_demo_total ].
  intros r Hr. destruct (select_latest_dated rs r Hr) as [Hin [t [Ht Hmax]]].
  split; [ exact Hin | ]. exists t. split; [ exact Ht | ].
  intros r' t' Hin' Hrid Ht'. apply Hmax.
  eapply group_dates_In; eassumption.
Qed.

(** ** The joins *)

Lemma adas_slice_length {X : Type} (l : list X) :
  List.length (adas_slice l) = Nat.min 15 (List.length l - 5).
Proof.
  unfold adas_slice. now rewrite length_firstn, length_skipn.
Qed.

Lemma join_rows_lengths {K K' : Type}
  (eq_dec : forall a b : K', {a = b} + {a <> b}) (proj : K -> K') (n w : nat)
  (lrows : list (K * list value)) (rrows : list (K' * list value)) :
  Forall (fun r => List.length (snd r) = n) lrows ->
  Forall (fun r => List.length (snd r) = w) rrows ->
  Forall (fun r => List.length (snd r) = (n + w)%nat)
         (join_rows eq_dec proj w lrows rrows).
Proof.
  intros Hl Hr. unfold join_rows. apply Forall_forall. intros x Hx.
  apply in_flat_map in Hx as [l [Hin Hx]].
  rewrite Forall_forall in Hl, Hr. specialize (Hl l Hin).
  destruct (filter _ rrows) as [ | m ms ] eqn:F.
  - destruct Hx as [<- | []]. simpl. now rewrite length_app, repeat_length, Hl.
  - apply in_map_iff in Hx as [r [<- Hrin]]. simpl.
    rewrite length_app, Hl. f_equal. apply Hr.
    rewrite <- F in Hrin. now apply filter_In in Hrin.
Qed.

Lemma set_index_well_formed {R K : Type}
  (eq_dec : forall a b : K, {a = b} + {a <> b})
  (key : R -> K) (body : R -> list value) (cols : list string) (rs : list R)
  (t : indexed K) :
  Forall (fun r => List.length (body r) = List.length cols) rs ->
  set_index eq_dec key body cols rs = Ok t ->
  well_formed t /\ columns t = cols.
Proof.
  intros H E. unfold set_index in E.
  destruct (has_duplicates eq_dec (map key rs)); [ discriminate | ].
  injection E as <-. split; [ | reflexivity ].
  unfold well_formed. simpl. apply Forall_map. exact H.
Qed.

Lemma adas_columns_well_formed (t : indexed visit_key) :
  well_formed t -> well_formed (adas_columns t).
Proof.
  unfold well_formed, adas_columns. simpl. intros H.
  apply Forall_map. simpl. revert H. apply Forall_impl. intros r Hr.
  now rewrite length_map, !adas_slice_length, Hr.
Qed.

Lemma join_step_well_formed (data data' : indexed visit_key) (a : aux) :
  well_formed data ->
  Forall (fun r => List.length r = width a)
         (match a with
          | ByVisit t => map snd (rows t)
          | BySubject t => map snd (rows t)
          end) ->
  join_step data a = Ok data' ->
  well_formed data'
  /\ List.length (columns data') = (List.length (columns data) + width a)%nat.
Proof.
  intros Hd Ha E. unfold well_formed in *.
  destruct a as [ t | t ]; simpl in *.
  - injection E as <-. simpl. rewrite length_app, !length_map.
    split; [ | reflexivity ].
    apply join_rows_lengths; [ exact Hd | ]. now apply Forall_map in Ha.
  - unfold join_left in E. destruct (existsb _ _); [ discriminate | ].
    injection E as <-. simpl. rewrite length_app.
    split; [ | reflexivity ].
    apply join_rows_lengths; [ exact Hd | ]. now apply Forall_map in Ha.
Qed.

Lemma NoDup_app_disjoint {X : Type} (l1 l2 : list X) (x : X) :
  NoDup (l1 ++ l2) -> In x l1 -> In x l2 -> False.
Proof.
  induction l1 as [ | y l1 IH ]; simpl; intros Hnd H1 H2.
  - destruct H1.
  - inversion Hnd as [ | ? ? Hy Hnd' ]; subst. destruct H1 as [-> | H1].
    + apply Hy. apply in_or_app. now right.
    + now apply IH.
Qed.

Lemma NoDup_app_right {X : Type} (l1 l2 : list X) :
  NoDup (l1 ++ l2) -> NoDup l2.
Proof.
  induction l1 as [ | y l1 IH ]; simpl; intros Hnd; [ exact Hnd | ].
  inversion Hnd; subst. now apply IH.
Qed.

Lemma combine_app_same {X Y : Type} (a l : list X) (xa xl : list Y) :
  List.length a = List.length xa ->
  combine (a ++ l) (xa ++ xl) = combine a xa ++ combine l xl.
Proof.
  revert xa. induction a as [ | x a IH ]; intros [ | y xa ] H;
    try discriminate H; simpl; [ reflexivity | ].
  f_equal. apply IH. now injection H.
Qed.

Lemma map_snd_combine_same {X Y : Type} (b : list X) (xb : list Y) :
  List.length b = List.length xb -> map snd (combine b xb) = xb.
Proof.
  revert xb. induction b as [ | x b IH ]; intros [ | y xb ] H;
    try discriminate H; simpl; [ reflexivity | ].
  f_equal. apply IH. now injection H.
Qed.

(** A list is its places 0 to 4, then 5 to 19, then the rest. *)
Lemma adas_slice_split {X : Type} (l : list X) :
  l = firstn 5 l ++ adas_slice l ++ skipn 15 (skipn 5 l).
Proof.
  unfold adas_slice. now rewrite firstn_skipn, firstn_skipn.
Qed.

(** Among the names of the table, the ones [drop] keeps -- those not in
    [cols] -- are the ones in the places 5 to 19. *)
Lemma kept_by_drop (l b : list string) (c : string) :
  In c l ->
  negb (mem_string c (filter (fun c => negb (mem_string c b)) l))
  = mem_string c b.
Proof.
  intros Hc. destruct (mem_string c b) eqn:M.
  - apply negb_true_iff.
    destruct (mem_string c (filter _ l)) eqn:F; [ | reflexivity ].
    apply mem_string_iff, filter_In in F as [_ F].
    rewrite M in F. discriminate F.
  - apply negb_false_iff. apply mem_string_iff, filter_In.
    split; [ exact Hc | now rewrite M ].
Qed.

(** Keeping, by name, the cells of the middle segment of a header without
    a repeated name gives the middle segment of the cells. *)
Lemma filter_middle_segment {Y : Type} (a b c : list string) (xa xb xc : list Y) :
  NoDup (a ++ b ++ c) ->
  List.length a = List.length xa -> List.length b = List.length xb ->
  map snd (filter (fun nc => mem_string (fst nc) b)
                  (combine (a ++ b ++ c) (xa ++ xb ++ xc)))
  = xb.
Proof.
  intros Hnd Ha Hb.
  rewrite (combine_app_same _ _ _ _ Ha), (combine_app_same _ _ _ _ Hb).
  rewrite !filter_app, !map_app.
  rewrite (filter_all_false _ (combine a xa)).
  - rewrite (filter_all_true _ (combine b xb)).
    + rewrite (filter_all_false _ (combine c xc)).
      * simpl. rewrite app_nil_r. now apply map_snd_combine_same.
      * intros [n v] Hin. apply in_combine_l in Hin. simpl.
        destruct (mem_string n b) eqn:M; [ exfalso | reflexivity ].
        apply mem_string_iff in M.
        exact (NoDup_app_disjoint _ _ n (NoDup_app_right _ _ Hnd) M Hin).
    + intros [n v] Hin. apply in_combine_l in Hin. simpl.
      now apply mem_string_iff.
  - intros [n v] Hin. apply in_combine_l in Hin. simpl.
    destruct (mem_string n b) eqn:M; [ exfalso | reflexivity ].
    apply mem_string_iff in M.
    apply (NoDup_app_disjoint _ _ n Hnd Hin). apply in_or_app. now left.
Qed.

Lemma drop_keeps_slice_cells (l : list string) (cells : list value) :
  NoDup l -> List.length cells = List.length l ->
  map snd
      (filter (fun nc =>
                 negb (mem_string (fst nc)
                         (filter (fun c => negb (mem_string c (adas_slice l))) l)))
              (combine l cells))
  = adas_slice cells.
Proof.
  intros Hnd Hlen.
  rewrite (filter_ext_in _ (fun nc => mem_string (fst nc) (adas_slice l))).
  - pose proof (filter_middle_segment
                  (firstn 5 l) (adas_slice l) (skipn 15 (skipn 5 l))
                  (firstn 5 cells) (adas_slice cells)
                  (skipn 15 (skipn 5 cells))) as H.
    rewrite <- !adas_slice_split in H. apply H.
    + exact Hnd.
    + now rewrite !length_firstn, Hlen.
    + unfold adas_slice. now rewrite !length_firstn, !length_skipn, Hlen.
  - intros [n v] Hin. apply in_combine_l in Hin. simpl.
    now apply kept_by_drop.
Qed.

Lemma drop_keeps_slice_names (l : list string) :
  NoDup l ->
  filter (fun c =>
            negb (mem_string c
                    (filter (fun c => negb (mem_string c (adas_slice l))) l))) l
  = adas_slice l.
Proof.
  intros Hnd.
  rewrite (filter_ext_in _ (fun c => mem_string c (adas_slice l)))
    by (intros c Hc; now apply kept_by_drop).
  pose proof (filter_middle_segment
                (firstn 5 l) (adas_slice l) (skipn 15 (skipn 5 l))
                (firstn 5 l) (adas_slice l) (skipn 15 (skipn 5 l))) as H.
  rewrite <- !adas_slice_split in H. specialize (H Hnd eq_refl eq_refl).
  assert (G : forall (b m : list string),
             map snd (filter (fun nc : string * string => mem_string (fst nc) b)
                             (combine m m))
             = filter (fun c => mem_string c b) m).
  { intros b m. induction m as [ | y m IHm ]; simpl; [ reflexivity | ].
    destruct (mem_string y b); simpl; now rewrite IHm. }
  rewrite <- G. exact H.
Qed.

(** X5: lines 31-35 as they are written -- the set of the names less the
    set of the names in the places 5 to 19, dropped by name, and the prefix
    [ADAS_] on what is left -- never raise and give the table that keeps,
    by position, the columns 5 to 19 with their cells and renames them,
    provided the file has no column name twice and one cell per column in
    each row. *)
Theorem adas_drop_by_name_is_the_slice (t : indexed visit_key)
  (Hnd : NoDup (columns t)) (Hwf : well_formed t) :
  drop_and_rename_adas t = Ok (adas_columns t).
Proof.
  unfold drop_and_rename_adas, drop_columns.
  set (cols := filter (fun c => negb (mem_string c (adas_slice (columns t))))
                      (columns t)).
  assert (F : forallb (fun c => mem_string c (columns t)) cols = true).
  { apply forallb_forall. intros c Hc. apply filter_In in Hc as [Hc _].
    now apply mem_string_iff. }
  cbv zeta. rewrite F. cbv beta iota zeta delta [bind Ok].
  unfold adas_columns. cbn [columns rows]. unfold Ok. do 2 f_equal.
  - f_equal. now apply drop_keeps_slice_names.
  - apply map_ext_in. intros r Hr. f_equal.
    apply drop_keeps_slice_cells; [ exact Hnd | ].
    unfold well_formed in Hwf. rewrite Forall_forall in Hwf. now apply Hwf.
Qed.

Lemma adas_drop_by_name_is_the_slice_witness :
  drop_and_rename_adas
    (mk_indexed ["ID"; "SITEID"; "VISCODE2"; "USERDATE"; "EXAMDATE";
                 "Q1"; "Q2"; "TOTAL11"]
       [ ((3%Z, "bl"),
          [Str "8"; Str "1"; Str "bl"; Str "2005-09-12"; Str "2005-09-12";
           Str "3"; Str "2.5"; Str "10.67"]) ])
  = Ok (mk_indexed ["ADAS_Q1"; "ADAS_Q2"; "ADAS_TOTAL11"]
          [ ((3%Z, "bl"), [Str "3"; Str "2.5"; Str "10.67"]) ]).
Proof.
  apply (adas_drop_by_name_is_the_slice
           (mk_indexed ["ID"; "SITEID"; "VISCODE2"; "USERDATE"; "EXAMDATE";
                        "Q1"; "Q2"; "TOTAL11"]
              [ ((3%Z, "bl"),
                 [Str "8"; Str "1"; Str "bl"; Str "2005-09-12";
                  Str "2005-09-12"; Str "3"; Str "2.5"; Str "10.67"]) ])).
  - repeat constructor; simpl; intuition discriminate.
  - repeat constructor.
Defined.

Lemma Forall_filter_keep {X : Type} (P : X -> Prop) (f : X -> bool) (l : list X) :
  Forall P l -> Forall P (filter f l).
Proof.
  rewrite !Forall_forall. intros H x Hx. apply filter_In in Hx. now apply H.
Qed.

Lemma well_formed_cells {K : Type} (t : indexed K) :
  well_formed t ->
  Forall (fun r => List.length r = List.length (columns t)) (map snd (rows t)).
Proof.
  unfold well_formed. intros H. now apply Forall_map.
Qed.

(** X7: when the import of lines 10-121 runs through, the joined table has
    exactly the rows of TADPOLE_D1_D2.csv: the same (RID, VISCODE) entries,
    in the same order, none dropped and none doubled. *)
Theorem import_keeps_the_primary_rows
  (src : sources) (data : indexed visit_key)
  (E : import_and_join src = Ok data) :
  map fst (rows data) = map (fun r => (RID r, VISCODE r)) (tadpole src)
  /\ List.length (rows data) = List.length (tadpole src)
  /\ NoDup (map fst (rows data)).
Proof.
  pose proof (import_and_join_rows src data E) as H.
  split; [ exact H | ].
  split.
  - rewrite <- (length_map fst), H. apply length_map.
  - rewrite H. unfold import_and_join in E.
    destruct (load_visits (tadpole_cols src) (tadpole src)) as [ | d0 ] eqn:L0;
      [ discriminate | ].
    apply set_index_Ok in L0 as [U0 K0]. rewrite K0 in U0. exact U0.
Qed.

Lemma import_keeps_the_primary_rows_witness :
  let src := mk_sources
       ["AGE"] [ mk_visit 1 "bl" [Str "70"]; mk_visit 1 "m06" [Str "70.5"];
                 mk_visit 2 "bl" [Str "64"] ]
       [] [ mk_visit 1 "m06" [] ]
       ["PTHAND"] [ mk_demo 1 (Some "2005-08-18") [Str "Left"];
                    mk_demo 1 (Some "2006-01-30") [Str "Right"] ]
       ["FHQMOM"] [ mk_visit 2 "sc" [Str "1"]; mk_visit 2 "bl" [Str "0"] ]
       ["TOMM40_A1"] [ mk_subject 3 [Str "27"] ] in
  import_and_join src
  = Ok (mk_indexed ["AGE"; "PTHAND"; "FHQMOM"; "TOMM40_A1"]
          [ ((1%Z, "bl"), [Str "70"; Str "Right"; NaN; NaN]);
            ((1%Z, "m06"), [Str "70.5"; Str "Right"; NaN; NaN]);
            ((2%Z, "bl"), [Str "64"; NaN; Str "1"; NaN]) ])
  /\ List.length
       (rows (mk_indexed ["AGE"; "PTHAND"; "FHQMOM"; "TOMM40_A1"]
          [ ((1%Z, "bl"), [Str "70"; Str "Right"; NaN; NaN]);
            ((1%Z, "m06"), [Str "70.5"; Str "Right"; NaN; NaN]);
            ((2%Z, "bl"), [Str "64"; NaN; Str "1"; NaN]) ]))
     = List.length (tadpole src).
Proof.
  intros src.
  assert (E : import_and_join src
              = Ok (mk_indexed ["AGE"; "PTHAND"; "FHQMOM"; "TOMM40_A1"]
                      [ ((1%Z, "bl"), [Str "70"; Str "Right"; NaN; NaN]);
                        ((1%Z, "m06"), [Str "70.5"; Str "Right"; NaN; NaN]);
                        ((2%Z, "bl"), [Str "64"; NaN; Str "1"; NaN]) ]))
    by (vm_compute; reflexivity).
  split; [ exact E | ].
  apply (import_keeps_the_primary_rows src _ E).
Defined.

(** X8: when every row of the five files has one cell per column, the joined
    table of lines 10-121 does too, and it has the columns of the primary
    table, at most 15 ADAS columns, and those of the three other tables. *)
Theorem import_table_is_well_formed
  (src : sources) (data : indexed visit_key)
  (H0 : Forall (fun r => List.length (cells r) = List.length (tadpole_cols src))
               (tadpole src))
  (H1 : Forall (fun r => List.length (cells r) = List.length (adas_cols src))
               (adas src))
  (H2 : Forall (fun r => List.length (demo_cells r) = List.length (demo_cols src))
               (demo src))
  (H3 : Forall (fun r => List.length (cells r) = List.length (fam_cols src))
               (fam src))
  (H4 : Forall (fun r => List.length (subj_cells r) = List.length (tom_cols src))
               (tom src))
  (E : import_and_join src = Ok data) :
  well_formed data
  /\ List.length (columns data)
     = (List.length (tadpole_cols src)
        + Nat.min 15 (List.length (adas_cols src) - 5)
        + List.length (demo_cols src)
        + List.length (fam_cols src)
        + List.length (tom_cols src))%nat.
Proof.
  unfold import_and_join, bind in E.
  destruct (load_visits (tadpole_cols src) (tadpole src)) as [ | d0 ] eqn:L0;
    [ discriminate | ].
  destruct (load_visits (adas_cols src) (adas src)) as [ | t1 ] eqn:L1;
    [ discriminate | ].
  destruct (join_step d0 (ByVisit (adas_columns t1))) as [ | d1 ] eqn:J1;
    [ discriminate | ].
  destruct (load_demo (demo_cols src) (demo src)) as [ | t2 ] eqn:L2;
    [ discriminate | ].
  destruct (join_step d1 (BySubject t2)) as [ | d2 ] eqn:J2; [ discriminate | ].
  destruct (load_fam (fam_cols src) (fam src)) as [ | t3 ] eqn:L3;
    [ discriminate | ].
  destruct (join_step d2 (BySubject t3)) as [ | d3 ] eqn:J3; [ discriminate | ].
  destruct (load_tom (tom_cols src) (tom src)) as [ | t4 ] eqn:L4;
    [ discriminate | ].
  apply set_index_well_formed in L0 as [W0 C0]; [ | exact H0 ].
  apply set_index_well_formed in L1 as [W1 C1]; [ | exact H1 ].
  apply set_index_well_formed in L2 as [W2 C2];
    [ | now apply Forall_filter_keep ].
  apply set_index_well_formed in L3 as [W3 C3];
    [ | now apply Forall_filter_keep ].
  apply set_index_well_formed in L4 as [W4 C4]; [ | exact H4 ].
  apply adas_columns_well_formed in W1.
  destruct (join_step_well_formed d0 d1 (ByVisit (adas_columns t1))
              W0 (well_formed_cells _ W1) J1) as [Wd1 N1].
  destruct (join_step_well_formed d1 d2 (BySubject t2)
              Wd1 (well_formed_cells _ W2) J2) as [Wd2 N2].
  destruct (join_step_well_formed d2 d3 (BySubject t3)
              Wd2 (well_formed_cells _ W3) J3) as [Wd3 N3].
  destruct (join_step_well_formed d3 data (BySubject t4)
              Wd3 (well_formed_cells _ W4) E) as [Wd4 N4].
  split; [ exact Wd4 | ].
  rewrite N4, N3, N2, N1. cbn [width adas_columns columns].
  rewrite length_map, adas_slice_length, C0, C1, C2, C3, C4. reflexivity.
Qed.

Lemma import_table_is_well_formed_witness :
  let src := mk_sources
       ["AGE"] [ mk_visit 1 "bl" [Str "70"]; mk_visit 2 "bl" [Str "64"] ]
       ["a"; "b"; "c"; "d"; "e"; "Q1"]
       [ mk_visit 1 "bl" [NaN; NaN; NaN; NaN; NaN; Str "3"] ]
       ["PTHAND"] [ mk_demo 1 (Some "2006-01-30") [Str "Right"] ]
       ["FHQMOM"] [ mk_visit 2 "sc" [Str "1"] ]
       ["TOMM40_A1"] [ mk_subject 2 [Str "27"] ] in
  well_formed (mk_indexed ["AGE"; "ADAS_Q1"; "PTHAND"; "FHQMOM"; "TOMM40_A1"]
                 [ ((1%Z, "bl"), [Str "70"; Str "3"; Str "Right"; NaN; NaN]);
                   ((2%Z, "bl"), [Str "64"; NaN; NaN; Str "1"; Str "27"]) ]).
Proof.
  intros src.
  refine (proj1 (import_table_is_well_formed src _ _ _ _ _ _ _));
    try (repeat constructor); vm_compute; reflexivity.
Defined.

(** ** The metadata filter and the numerical features *)

Lemma getcol_error (c : string) (d : frame) (e : error) :
  getcol c d = Raise e -> e = KeyError.
Proof.
  induction d as [ | [n col] d IH ]; simpl.
  - intros H. now injection H as <-.
  - destruct (String.eqb n c); [ discriminate | exact IH ].
Qed.

Lemma getcol_Ok_In (c : string) (d : frame) (col : list value) :
  getcol c d = Ok col -> In (c, col) d.
Proof.
  induction d as [ | [n col0] d IH ]; simpl.
  - discriminate.
  - destruct (String.eqb_spec n c) as [-> | _].
    + intros H. injection H as <-. now left.
    + intros H. right. auto.
Qed.

Lemma getcol_absent (c : string) (d : frame) :
  ~ In c (map fst d) -> getcol c d = Raise KeyError.
Proof.
  induction d as [ | [n col] d IH ]; simpl; intros H.
  - reflexivity.
  - destruct (String.eqb_spec n c) as [-> | _].
    + exfalso. apply H. now left.
    + apply IH. intros Hin. apply H. now right.
Qed.

Lemma getcol_present (c : string) (d : frame) :
  In c (map fst d) -> exists col, getcol c d = Ok col.
Proof.
  induction d as [ | [n col] d IH ]; simpl; intros H.
  - destruct H.
  - destruct (String.eqb_spec n c) as [-> | N].
    + eexists. reflexivity.
    + destruct H as [H | H]; [ contradiction | auto ].
Qed.

Lemma select_columns_cons (c : string) (cs : list string) (data d : frame) :
  select_columns (c :: cs) data = Ok d ->
  exists col d', getcol c data = Ok col
                 /\ select_columns cs data = Ok d'
                 /\ d = (c, col) :: d'.
Proof.
  unfold select_columns. simpl.
  destruct (getcol c data) as [ e | col ]; [ discriminate | ]. simpl.
  destruct (apply_raising _ cs) as [ e | d' ]; [ discriminate | ]. simpl.
  intros H. injection H as <-. eauto.
Qed.

Lemma metadata_filter_names (cols : list string) (data d : frame) :
  select_columns cols data = Ok d -> map fst d = cols.
Proof.
  revert d. induction cols as [ | c cs IH ]; intros d E.
  - now injection E as <-.
  - apply select_columns_cons in E as [col [d' [_ [E' ->]]]].
    simpl. now rewrite (IH d' E').
Qed.

(** X9: the metadata filter of lines 135-136, [data = data[cols]].  It
    raises [KeyError] exactly when the registry names a column that the
    joined table does not have; otherwise the table has the listed columns,
    in the order of the registry, each with the cells it had, and no other
    column. *)
Theorem metadata_filter_selects_listed_columns
  (cols : list string) (data : frame) :
  (select_columns cols data = Raise KeyError
   <-> exists c, In c cols /\ getcol c data = Raise KeyError)
  /\ (forall e, select_columns cols data = Raise e -> e = KeyError)
  /\ (forall d, select_columns cols data = Ok d ->
        map fst d = cols
        /\ (forall c, In c cols -> getcol c d = getcol c data)
        /\ (forall c, ~ In c cols -> getcol c d = Raise KeyError)).
Proof.
  assert (Hok : forall d, select_columns cols data = Ok d ->
                  map fst d = cols
                  /\ (forall c, In c cols -> getcol c d = getcol c data)).
  { induction cols as [ | c0 cs IH ]; intros d E.
    - injection E as <-. split; [ reflexivity | intros c [] ].
    - apply select_columns_cons in E as [col [d' [G [E' ->]]]].
      destruct (IH d' E') as [Hn Hg]. split; [ simpl; now rewrite Hn | ].
      intros c Hc. simpl. destruct (String.eqb_spec c0 c) as [-> | N].
      + now rewrite G.
      + destruct Hc as [Hc | Hc]; [ contradiction | auto ]. }
  assert (Herr : forall e, select_columns cols data = Raise e ->
                   e = KeyError
                   /\ exists c, In c cols /\ getcol c data = Raise KeyError).
  { unfold select_columns. clear Hok.
    induction cols as [ | c0 cs IH ]; simpl; intros e E.
    - discriminate.
    - destruct (getcol c0 data) as [ e0 | col ] eqn:G; simpl in E.
      + injection E as <-. pose proof (getcol_error _ _ _ G) as ->.
        split; [ reflexivity | ]. exists c0. auto.
      + destruct (apply_raising _ cs) as [ e1 | d' ] eqn:A; simpl in E;
          [ | discriminate ].
        injection E as <-. destruct (IH e1 eq_refl) as [-> [c [Hc Gc]]].
        split; [ reflexivity | ]. exists c. auto. }
  split.
  { split.
    - intros E. now apply Herr in E.
    - intros [c [Hc Gc]].
      destruct (select_columns cols data) as [ e | d ] eqn:E.
      + now destruct (Herr e eq_refl) as [-> _].
      + exfalso. destruct (Hok d eq_refl) as [_ Hg].
        pose proof (Hg c Hc) as Hd. rewrite Gc in Hd.
        assert (Hin : In c (map fst d)) by (rewrite (proj1 (Hok d eq_refl)); auto).
        destruct (getcol_present _ _ Hin) as [col Hcol].
        rewrite Hcol in Hd. discriminate. }
  split; [ intros e E; now apply Herr in E | ].
  intros d E. destruct (Hok d E) as [Hn Hg].
  split; [ exact Hn | ]. split; [ exact Hg | ].
  intros c Hc. apply getcol_absent. now rewrite Hn.
Qed.

Lemma metadata_filter_selects_listed_columns_witness :
  select_columns ["AGE"; "PTRTYR"] [ ("AGE", [Str "70"]); ("DX", [Str "MCI"]) ]
  = Raise KeyError.
Proof.
  apply (proj1 (metadata_filter_selects_listed_columns
                  ["AGE"; "PTRTYR"]
                  [ ("AGE", [Str "70"]); ("DX", [Str "MCI"]) ])).
  exists "PTRTYR". split; [ simpl; auto | reflexivity ].
Defined.

Lemma apply_raising_results {A B : Type} (f : A -> result B)
  (xs : list A) (ys : list B) :
  apply_raising f xs = Ok ys ->
  List.length ys = List.length xs
  /\ forall y, In y ys -> exists x, In x xs /\ f x = Ok y.
Proof.
  revert ys. induction xs as [ | x xs IH ]; simpl; intros ys E.
  - injection E as <-. split; [ reflexivity | intros y [] ].
  - destruct (f x) as [ e | y0 ] eqn:Fx; [ discriminate | ]. simpl in E.
    destruct (apply_raising f xs) as [ e | ys' ]; [ discriminate | ].
    injection E as <-. destruct (IH ys' eq_refl) as [Hl Hy]. split.
    + simpl. now rewrite Hl.
    + intros y [<- | Hin]; [ exists x; auto | ].
      destruct (Hy y Hin) as [x' [Hx' Fx']]. exists x'. auto.
Qed.

Lemma to_numeric_not_str (v w : value) : to_numeric v = Ok w -> not_str w = true.
Proof.
  destruct v as [ | | s | x ]; simpl.
  - intros E. now injection E as <-.
  - intros E. now injection E as <-.
  - destruct s as [ | c r ]; [ intros E; now injection E as <- | ].
    destruct (parse_decimal (String c r)).
    + intros E. now injection E as <-.
    + destruct (parse_infinity (String c r)); [ | discriminate ].
      intros E. now injection E as <-.
  - intros E. now injection E as <-.
Qed.

Lemma setcol_names (c : string) (col : list value) (d : frame) :
  In c (map fst d) -> map fst (setcol c col d) = map fst d.
Proof.
  induction d as [ | [n old] d IH ]; simpl; intros H.
  - destruct H.
  - destruct (String.eqb_spec n c) as [-> | N]; simpl.
    + reflexivity.
    + f_equal. destruct H as [H | H]; [ contradiction | auto ].
Qed.

Lemma getcol_Ok_name (c : string) (d : frame) (col : list value) :
  getcol c d = Ok col -> In c (map fst d).
Proof.
  intros H. apply getcol_Ok_In in H. now apply (in_map fst) in H.
Qed.

(** What a loop keeps when every pass keeps it. *)
Lemma for_each_invariant {A S : Type} (P : S -> Prop)
  (body : S -> A -> result S) (xs : list A) :
  (forall s x s', P s -> body s x = Ok s' -> P s') ->
  forall s s', P s -> for_each body xs s = Ok s' -> P s'.
Proof.
  intros Hb. induction xs as [ | x xs IH ]; simpl; intros s s' Hs E.
  - now injection E as <-.
  - destruct (body s x) as [ e | s1 ] eqn:B; [ discriminate | ].
    simpl in E. eapply IH; [ | exact E ]. eapply Hb; eassumption.
Qed.

Lemma clean_numerical_names (data_meta : list meta_entry) (data data' : frame) :
  clean_numerical data_meta data = Ok data' -> map fst data' = map fst data.
Proof.
  unfold clean_numerical. intros E.
  match type of E with
  | bind ?m _ = _ => destruct m as [ e | d2 ] eqn:E2; [ discriminate | ]
  end.
  simpl in E.
  set (d1 := map (fun nc => (fst nc, map replace_blank (snd nc))) data) in *.
  assert (N1 : map fst d1 = map fst data).
  { unfold d1. rewrite map_map. reflexivity. }
  assert (N2 : map fst d2 = map fst data).
  { refine (for_each_invariant (fun s : frame => map fst s = map fst data)
              _ _ _ d1 d2 N1 E2).
    intros s x s' Hs B.
    destruct (getcol x s) as [ e | col ] eqn:G; [ discriminate | ].
    simpl in B. injection B as <-.
    rewrite setcol_names; [ exact Hs | eapply getcol_Ok_name, G ]. }
  refine (for_each_invariant (fun s : frame => map fst s = map fst data)
            _ _ _ d2 data' N2 E).
  intros s x s' Hs B.
  destruct (getcol x s) as [ e | col ] eqn:G; [ discriminate | ].
  simpl in B. destruct (apply_raising to_numeric col); [ discriminate | ].
  simpl in B. injection B as <-.
  rewrite setcol_names; [ exact Hs | eapply getcol_Ok_name, G ].
Qed.

(** X10: when lines 145-159 run through, the table has the columns it had,
    each with as many cells; a cell is what the blank replacement, the
    stripping of [<] and [>] (in the three censored columns) and the coercion
    (in the registry's numeric columns of type object) make of the old cell;
    and no cell of a coerced column is a string any more. *)
Theorem numeric_cleaning_cell_by_cell
  (data_meta : list meta_entry) (data data' : frame)
  (c : string) (col : list value)
  (E : clean_numerical data_meta data = Ok data')
  (Hc : getcol c data = Ok col) :
  map fst data' = map fst data
  /\ exists col',
       getcol c data' = Ok col'
       /\ apply_raising (normalize_cell data_meta c) col = Ok col'
       /\ List.length col' = List.length col
       /\ (In c (numeric_cols data_meta) ->
           Forall (fun v => not_str v = true) col').
Proof.
  split; [ eapply clean_numerical_names, E | ].
  destruct (clean_numerical_cells _ _ _ E c col Hc) as [col' [G A]].
  exists col'. split; [ exact G | ]. split; [ exact A | ].
  destruct (apply_raising_results _ _ _ A) as [Hl Hy].
  split; [ exact Hl | ].
  intros Hn. apply Forall_forall. intros y Hin.
  destruct (Hy y Hin) as [x [_ Fx]]. unfold normalize_cell in Fx.
  rewrite (proj2 (mem_string_iff _ _) Hn) in Fx.
  eapply to_numeric_not_str, Fx.
Qed.

Lemma numeric_cleaning_cell_by_cell_witness :
  let meta := [ mk_meta "ABETA_UPENNBIOMK9_04_19_17" 1 1 0 "object";
                mk_meta "DX" 1 0 1 "object" ] in
  let data := [ ("ABETA_UPENNBIOMK9_04_19_17", [Str "<200"; Str " "; Str "741.5"]);
                ("TAU_UPENNBIOMK9_04_19_17", [Str ">1300"; NaN; Str "81"]);
                ("PTAU_UPENNBIOMK9_04_19_17", [Str "<8"; NaN; Str " "]);
                ("DX", [Str "MCI"; Str " "; Str "NL"]) ] in
  let data' := [ ("ABETA_UPENNBIOMK9_04_19_17",
                  [Num (Fin (200 # 1)); NaN; Num (Fin (1483 # 2))]);
                 ("TAU_UPENNBIOMK9_04_19_17", [Str "1300"; NaN; Str "81"]);
                 ("PTAU_UPENNBIOMK9_04_19_17", [Str "8"; NaN; NaN]);
                 ("DX", [Str "MCI"; NaN; Str "NL"]) ] in
  clean_numerical meta data = Ok data'
  /\ map fst data' = map fst data.
Proof.
  intros meta data data'.
  assert (E : clean_numerical meta data = Ok data') by reflexivity.
  split; [ exact E | ].
  exact (proj1 (numeric_cleaning_cell_by_cell meta data data'
                  "DX" [Str "MCI"; Str " "; Str "NL"] E eq_refl)).
Defined.

Lemma loop_missing_column (f : value -> value) (c : string) (cs : list string) :
  In c cs ->
  forall d,
    getcol c d = Raise KeyError ->
    for_each (fun d c => col <- getcol c d ;; Ok (setcol c (map f col) d)) cs d
    = Raise KeyError.
Proof.
  induction cs as [ | x cs IH ]; intros Hin d G.
  - destruct Hin.
  - simpl. destruct (getcol x d) as [ e | colx ] eqn:Gx.
    + now rewrite (getcol_error _ _ _ Gx).
    + simpl. destruct Hin as [-> | Hin]; [ rewrite G in Gx; discriminate | ].
      apply IH; [ exact Hin | ].
      rewrite getcol_setcol. destruct (String.eqb_spec x c) as [-> | _];
        [ rewrite G in Gx; discriminate | exact G ].
Qed.

(** X11: the three censored columns of lines 148-150 are named in the
    script, not in the registry: when the table lacks one of them, lines
    145-159 do not run through, whatever the registry declares and whatever
    the other columns hold -- the loop of line 153 stops at the missing
    name, if not before. *)
Theorem numeric_cleaning_needs_the_censored_columns
  (data_meta : list meta_entry) (data : frame) (c : string)
  (Hc : In c censored_cols)
  (Hmiss : getcol c data = Raise KeyError) :
  forall data', clean_numerical data_meta data <> Ok data'.
Proof.
  intros data'. unfold clean_numerical.
  rewrite (loop_missing_column strip_comparison c censored_cols Hc).
  - discriminate.
  - rewrite getcol_map, Hmiss. reflexivity.
Qed.

Lemma numeric_cleaning_needs_the_censored_columns_witness :
  getcol "PTAU_UPENNBIOMK9_04_19_17"
         [ ("AGE", [Str "70"]);
           ("ABETA_UPENNBIOMK9_04_19_17", [Str "<200"]);
           ("TAU_UPENNBIOMK9_04_19_17", [Str "81"]) ]
  = Raise KeyError
  /\ forall data',
       clean_numerical [ mk_meta "AGE" 1 1 0 "object" ]
                       [ ("AGE", [Str "70"]);
                         ("ABETA_UPENNBIOMK9_04_19_17", [Str "<200"]);
                         ("TAU_UPENNBIOMK9_04_19_17", [Str "81"]) ]
       <> Ok data'.
Proof.
  split; [ reflexivity | ].
  apply (numeric_cleaning_needs_the_censored_columns _ _
           "PTAU_UPENNBIOMK9_04_19_17").
  - simpl. auto.
  - reflexivity.
Defined.

(** ** The categorical features, column by column *)

Lemma string_length_append (a b : string) :
  String.length (a ++ b) = (String.length a + String.length b)%nat.
Proof.
  induction a as [ | c a IH ]; simpl; [ reflexivity | now rewrite IH ].
Qed.

(** The name of an indicator column is never the name of its source. *)
Lemma dummy_name_fresh (c x : string) : (c ++ "_" ++ x)%string <> c.
Proof.
  intros H. apply (f_equal String.length) in H.
  rewrite string_length_append in H. simpl in H. lia.
Qed.

Lemma dummies_names {A : Type} (eq_dec : forall a b : A, {a = b} + {a <> b})
  (leb : A -> A -> bool) (render : A -> string) (c : string)
  (col : list (option A)) (n : string) :
  In n (map fst (dummies_frame (get_dummies eq_dec leb render c col))) ->
  n <> c.
Proof.
  unfold dummies_frame, get_dummies. rewrite !map_map. simpl.
  intros H. apply in_map_iff in H as [l [<- _]]. apply dummy_name_fresh.
Qed.

Lemma filter_setcol (c : string) (v : list value) (d : frame) :
  filter (fun nc => negb (String.eqb (fst nc) c)) (setcol c v d)
  = filter (fun nc => negb (String.eqb (fst nc) c)) d.
Proof.
  induction d as [ | [n old] d IH ]; simpl.
  - now rewrite String.eqb_refl.
  - destruct (String.eqb_spec n c) as [-> | N]; simpl.
    + now rewrite String.eqb_refl.
    + destruct (String.eqb_spec n c) as [ | _ ]; [ contradiction | ].
      simpl. now rewrite IH.
Qed.

Lemma setcol_names_present (c : string) (v : list value) (d : frame)
  (col : list value) :
  getcol c d = Ok col -> map fst (setcol c v d) = map fst d.
Proof.
  intros H. apply setcol_names. eapply getcol_Ok_name, H.
Qed.

(** Lines 205 and 208 (222 and 225) together, for indicator columns [ds]
    whose names differ from [c]. *)
Lemma join_then_drop (c : string) (data ds : frame) :
  In c (map fst data) ->
  (forall n, In n (map fst ds) -> n <> c) ->
  (d <- join_columns data ds ;; drop_column c d)
  = if existsb (fun nc => mem_string (fst nc) (map fst ds)) data
    then Raise ValueError
    else Ok (filter (fun nc => negb (String.eqb (fst nc) c)) data ++ ds).
Proof.
  intros Hc Hds. unfold join_columns.
  destruct (existsb _ data); [ reflexivity | ]. simpl.
  unfold drop_column.
  assert (M : mem_string c (map fst (data ++ ds)) = true).
  { apply mem_string_iff. rewrite map_app. apply in_or_app. now left. }
  rewrite M, filter_app. do 2 f_equal.
  apply filter_all_true. intros [n bits] Hin. simpl.
  apply negb_true_iff. apply String.eqb_neq. apply Hds.
  now apply (in_map fst) in Hin.
Qed.

Lemma existsb_overlap (data ds : frame) :
  existsb (fun nc => mem_string (fst nc) (map fst ds)) data = true
  <-> exists n, In n (map fst ds) /\ In n (map fst data).
Proof.
  rewrite existsb_exists. split.
  - intros [[n col] [Hin M]]. simpl in M. apply mem_string_iff in M.
    exists n. split; [ exact M | ]. now apply (in_map fst) in Hin.
  - intros [n [Hds Hd]]. apply in_map_iff in Hd as [[n' col] [E Hin]].
    simpl in E. subst n'. exists (n, col).
    split; [ exact Hin | now apply mem_string_iff ].
Qed.

Lemma existsb_names (p : string -> bool) (d : frame) :
  existsb (fun nc => p (fst nc)) d = existsb p (map fst d).
Proof.
  induction d as [ | x d IH ]; simpl; [ reflexivity | now rewrite IH ].
Qed.

Lemma encode_text_step_unfold (data : frame) (c : string) (col : list value) :
  getcol c data = Ok col ->
  encode_text_step data c
  = if existsb (fun nc => mem_string (fst nc)
                            (map fst (dummies_frame (encode_text c col)))) data
    then Raise ValueError
    else Ok (filter (fun nc => negb (String.eqb (fst nc) c)) data
             ++ dummies_frame (encode_text c col)).
Proof.
  intros Hc. unfold encode_text_step. rewrite Hc.
  cbv beta iota zeta delta [bind Ok].
  rewrite getcol_setcol, String.eqb_refl.
  cbv beta iota zeta delta [bind Ok].
  rewrite getcol_setcol, String.eqb_refl.
  cbv beta iota zeta delta [bind Ok].
  fold (clean_and_group col). fold (encode_text c col).
  assert (N : map fst (setcol c (clean_and_group col)
                         (setcol c (map clean_string col) data))
              = map fst data).
  { rewrite setcol_names; [ now apply (setcol_names_present _ _ _ col) | ].
    rewrite (setcol_names_present _ _ _ col Hc).
    eapply getcol_Ok_name, Hc. }
  refine (eq_trans (join_then_drop c _ _ _ _) _).
  - rewrite N. eapply getcol_Ok_name, Hc.
  - unfold encode_text. apply dummies_names.
  - rewrite !filter_setcol.
    rewrite (existsb_names (fun n => mem_string n _)), N.
    now rewrite <- (existsb_names (fun n => mem_string n _)).
Qed.

Lemma encode_coded_step_unfold (render : number -> string)
  (data : frame) (c : string) (col : list value) :
  getcol c data = Ok col ->
  encode_coded_step render data c
  = (col' <- apply_raising to_numeric col ;;
     let ds := dummies_frame
                 (get_dummies number_eq_dec number_leb render c
                              (map as_number col')) in
     if existsb (fun nc => mem_string (fst nc) (map fst ds)) data
     then Raise ValueError
     else Ok (filter (fun nc => negb (String.eqb (fst nc) c)) data ++ ds)).
Proof.
  intros Hc. unfold encode_coded_step. rewrite Hc.
  cbv beta iota zeta delta [bind Ok].
  destruct (apply_raising to_numeric col) as [ e | col' ]; [ reflexivity | ].
  rewrite getcol_setcol, String.eqb_refl.
  cbv beta iota zeta delta [bind Ok].
  assert (N : map fst (setcol c col' data) = map fst data)
    by (apply (setcol_names_present _ _ _ col Hc)).
  refine (eq_trans (join_then_drop c _ _ _ _) _).
  - rewrite N. eapply getcol_Ok_name, Hc.
  - apply dummies_names.
  - rewrite !filter_setcol.
    rewrite (existsb_names (fun n => mem_string n _)), N.
    now rewrite <- (existsb_names (fun n => mem_string n _)).
Qed.

Lemma clean_and_group_text (col : list value) (x : value) :
  In x (clean_and_group col) -> exists s, x = Str s.
Proof.
  unfold clean_and_group, group_smaller_levels. intros H.
  apply in_map_iff in H as [y [E Hy]].
  destruct (py_in y _) eqn:P.
  - subst y. apply py_in_iff, top_levels_In in P as [_ Hn].
    apply in_map_iff in Hy as [v [<- _]].
    destruct v; simpl in *; try discriminate. eauto.
  - subst x. eauto.
Qed.

(** X12: [clean_string] (lines 180-187) brings a string to a normal form:
    the result holds no capital letter, blank, slash or period, cleaning it
    again changes nothing, and two strings that differ only in the case of
    their letters clean to the same text. *)
Theorem clean_string_normal_form :
  (forall v, clean_string (clean_string v) = clean_string v)
  /\ (forall s, all_chars plain (clean_text s) = true)
  /\ (forall s, clean_string (Str (lower s)) = clean_string (Str s))
  /\ (forall v, clean_string v = PyNone \/ exists s, clean_string v = Str s).
Proof.
  split; [ exact clean_string_idempotent | ].
  split.
  { intros s. pose proof (clean_text_cleaned s) as H. unfold cleaned in H.
    now apply andb_true_iff in H. }
  split.
  { intros s. simpl. unfold clean_text.
    now rewrite (lower_fixed _ (lower_no_upper s)). }
  intros [ | | s | x ]; simpl; eauto.
Qed.

(** X13: when a column has no missing cell and no more than 30 distinct
    values, the grouping of lines 200-201 keeps every distinct value as a
    level and leaves the column as it is: no cell becomes [other] that was
    not [other] before. *)
Theorem grouping_keeps_a_small_column (col : list value)
  (Hfull : forall x, In x col -> isnull x = false)
  (Hsmall : (List.length (distinct_values col) <= 30)%nat) :
  Permutation (top_levels col) (distinct_values col)
  /\ (forall x, In x col -> In x (top_levels col))
  /\ group_smaller_levels col = col.
Proof.
  assert (P : Permutation (top_levels col) (distinct_values col)).
  { unfold top_levels. rewrite firstn_all2.
    - apply value_counts_index.
    - now rewrite (Permutation_length (value_counts_index col)). }
  split; [ exact P | ]. split.
  - intros x Hx. apply (Permutation_in _ (Permutation_sym P)).
    apply distinct_values_In. auto.
  - now apply group_smaller_levels_fixed.
Qed.

Lemma grouping_keeps_a_small_column_witness :
  group_smaller_levels [Str "married"; Str "widowed"; Str "married"]
  = [Str "married"; Str "widowed"; Str "married"].
Proof.
  apply (grouping_keeps_a_small_column
           [Str "married"; Str "widowed"; Str "married"]).
  - intros x [<- | [<- | [<- | []]]]; reflexivity.
  - vm_compute. lia.
Defined.

(** X14: for a text column (lines 197-204) the cleaned and grouped cells are
    all strings -- a missing cell has become [other] --, so every row holds a
    category, and the indicators of a row sum to 1 unless the row holds the
    first of the sorted categories, the dropped one, where they sum to 0. *)
Theorem text_indicators_sum_to_one (c : string) (col : list value) (i : nat)
  (Hi : (i < List.length col)%nat) :
  exists s,
    nth i (clean_and_group col) NaN = Str s
    /\ In s (levels string_dec String.leb (map as_text (clean_and_group col)))
    /\ ((row_sum (encode_text c col) i = 0%nat
         /\ hd_error (levels string_dec String.leb
                        (map as_text (clean_and_group col))) = Some s)
        \/ (row_sum (encode_text c col) i = 1%nat
            /\ hd_error (levels string_dec String.leb
                           (map as_text (clean_and_group col))) <> Some s)).
Proof.
  set (cg := clean_and_group col).
  assert (Hl : List.length cg = List.length col).
  { unfold cg, clean_and_group, group_smaller_levels. now rewrite !length_map. }
  assert (Hin : In (nth i cg NaN) cg) by (apply nth_In; lia).
  destruct (clean_and_group_text col _ Hin) as [s Hs].
  exists s. split; [ exact Hs | ].
  assert (Hnth : nth i (map as_text cg) None = Some s).
  { change None with (as_text NaN). now rewrite map_nth, Hs. }
  assert (Hlev : In s (levels string_dec String.leb (map as_text cg))).
  { apply levels_In. rewrite <- Hnth. apply nth_In. rewrite length_map. lia. }
  split; [ exact Hlev | ].
  unfold encode_text. fold cg. rewrite row_sum_dummies, Hnth.
  pose proof (levels_NoDup string_dec String.leb (map as_text cg)) as Hnd.
  destruct (levels string_dec String.leb (map as_text cg)) as [ | ref rest ];
    [ destruct Hlev | ].
  simpl tl. simpl hd_error. inversion Hnd as [ | ? ? Hnin _ ]; subst.
  destruct (in_dec string_dec s rest) as [Hr | Hr].
  - right. split; [ reflexivity | ]. intros E. injection E as ->. contradiction.
  - left. split; [ reflexivity | ].
    destruct Hlev as [-> | Hlev]; [ reflexivity | contradiction ].
Qed.

Lemma text_indicators_sum_to_one_witness :
  exists s,
    nth 1 (clean_and_group [Str "Right"; NaN; Str "Left"]) NaN = Str s
    /\ In s (levels string_dec String.leb
               (map as_text (clean_and_group [Str "Right"; NaN; Str "Left"])))
    /\ ((row_sum (encode_text "PTHAND" [Str "Right"; NaN; Str "Left"]) 1 = 0%nat
         /\ hd_error (levels string_dec String.leb
                        (map as_text
                           (clean_and_group [Str "Right"; NaN; Str "Left"])))
            = Some s)
        \/ (row_sum (encode_text "PTHAND" [Str "Right"; NaN; Str "Left"]) 1
            = 1%nat
            /\ hd_error (levels string_dec String.leb
                           (map as_text
                              (clean_and_group [Str "Right"; NaN; Str "Left"])))
               <> Some s)).
Proof.
  apply text_indicators_sum_to_one. simpl. lia.
Defined.

(** X15: one pass of the loop of lines 194-208 over a column [c] of the
    table.  When no indicator name is the name of a column already there,
    the table loses the column [c], keeps its other columns as they are and
    in order, and gets the indicator columns of [c] at its end; when an
    indicator name is taken, line 205 raises [ValueError]; and after a pass
    that went through, [c] is no column of the table any more. *)
Theorem text_encoding_step_replaces_the_column
  (data : frame) (c : string) (col : list value)
  (Hc : getcol c data = Ok col) :
  ((forall n, In n (map fst (dummies_frame (encode_text c col))) ->
              ~ In n (map fst data)) ->
   encode_text_step data c
   = Ok (filter (fun nc => negb (String.eqb (fst nc) c)) data
         ++ dummies_frame (encode_text c col)))
  /\ ((exists n, In n (map fst (dummies_frame (encode_text c col)))
                 /\ In n (map fst data)) ->
      encode_text_step data c = Raise ValueError)
  /\ (forall data', encode_text_step data c = Ok data' ->
        ~ In c (map fst data')
        /\ getcol c data' = Raise KeyError
        /\ forall c' col', c' <> c -> getcol c' data = Ok col' ->
                           getcol c' data' = Ok col').
Proof.
  rewrite (encode_text_step_unfold data c col Hc).
  destruct (existsb _ data) eqn:X.
  - apply existsb_overlap in X. split.
    + intros H. exfalso. destruct X as [n [H1 H2]]. now apply (H n).
    + split; [ reflexivity | discriminate ].
  - split; [ reflexivity | ]. split.
    + intros H. apply existsb_overlap in H. rewrite H in X. discriminate.
    + intros data' E. injection E as <-.
      assert (Hnot : ~ In c (map fst
                (filter (fun nc => negb (String.eqb (fst nc) c)) data
                 ++ dummies_frame (encode_text c col)))).
      { rewrite map_app. intros H. apply in_app_or in H as [H | H].
        - apply in_map_iff in H as [[n v] [E H]]. simpl in E. subst n.
          apply filter_In in H as [_ H]. simpl in H.
          now rewrite String.eqb_refl in H.
        - unfold encode_text in H. now apply dummies_names in H. }
      split; [ exact Hnot | ]. split; [ now apply getcol_absent | ].
      intros c' col' Hne G. clear Hnot X Hc.
      induction data as [ | [n v] data IH ]; simpl in *; [ discriminate | ].
      destruct (String.eqb_spec n c') as [-> | N].
      * destruct (String.eqb_spec c' c) as [ | _ ]; [ contradiction | ].
        simpl. now rewrite String.eqb_refl.
      * destruct (String.eqb_spec n c) as [-> | _]; simpl.
        -- now apply IH.
        -- destruct (String.eqb_spec n c') as [ | _ ]; [ contradiction | ].
           now apply IH.
Qed.

Lemma text_encoding_step_replaces_the_column_witness :
  encode_text_step [ ("AGE", [Str "70"; Str "64"; Str "81"]);
                     ("PTHAND", [Str "Right"; NaN; Str "Left"]) ] "PTHAND"
  = Ok [ ("AGE", [Str "70"; Str "64"; Str "81"]);
         ("PTHAND_other", [Num (Fin 0); Num (Fin 1); Num (Fin 0)]);
         ("PTHAND_right", [Num (Fin 1); Num (Fin 0); Num (Fin 0)]) ].
Proof.
  apply (proj1 (text_encoding_step_replaces_the_column
                  [ ("AGE", [Str "70"; Str "64"; Str "81"]);
                    ("PTHAND", [Str "Right"; NaN; Str "Left"]) ]
                  "PTHAND" [Str "Right"; NaN; Str "Left"] eq_refl)).
  intros n Hn Hd. vm_compute in Hn, Hd.
  destruct Hn as [<- | [<- | []]];
    destruct Hd as [Hd | [Hd | []]]; discriminate Hd.
Defined.

Lemma apply_raising_error {A B : Type} (f : A -> result B) (xs : list A)
  (e : error) :
  apply_raising f xs = Raise e -> exists x, In x xs /\ f x = Raise e.
Proof.
  induction xs as [ | x xs IH ]; simpl; intros E.
  - discriminate.
  - destruct (f x) as [ e0 | y ] eqn:Fx; simpl in E.
    + injection E as <-. exists x. auto.
    + destruct (apply_raising f xs) as [ e1 | ys ]; simpl in E;
        [ | discriminate ].
      injection E as <-. destruct (IH eq_refl) as [x' [Hx' Fx']].
      exists x'. auto.
Qed.

Lemma to_numeric_error (v : value) (e : error) :
  to_numeric v = Raise e -> e = ValueError.
Proof.
  destruct v as [ | | s | x ]; simpl; try discriminate.
  destruct s as [ | c r ]; [ discriminate | ].
  destruct (parse_decimal (String c r)); [ discriminate | ].
  destruct (parse_infinity (String c r)); [ discriminate | ].
  intros H. now injection H as <-.
Qed.

(** X16: one pass of the loop of lines 215-225 over a numeric-coded column
    [c].  A cell that does not scan as a number makes line 218 raise
    [ValueError]; otherwise, when no indicator name is taken, the table
    loses the column [c], keeps its other columns in order and gets the
    indicator columns of the coerced cells at its end, and when an indicator
    name is taken line 222 raises [ValueError]. *)
Theorem coded_encoding_step_replaces_the_column
  (render : number -> string) (data : frame) (c : string) (col : list value)
  (Hc : getcol c data = Ok col) :
  ((exists v, In v col /\ to_numeric v = Raise ValueError) ->
   encode_coded_step render data c = Raise ValueError)
  /\ (forall col',
        apply_raising to_numeric col = Ok col' ->
        let ds := dummies_frame
                    (get_dummies number_eq_dec number_leb render c
                                 (map as_number col')) in
        ((forall n, In n (map fst ds) -> ~ In n (map fst data)) ->
         encode_coded_step render data c
         = Ok (filter (fun nc => negb (String.eqb (fst nc) c)) data ++ ds))
        /\ ((exists n, In n (map fst ds) /\ In n (map fst data)) ->
            encode_coded_step render data c = Raise ValueError))
  /\ (forall e, encode_coded_step render data c = Raise e -> e = ValueError).
Proof.
  rewrite (encode_coded_step_unfold render data c col Hc).
  split.
  { intros [v [Hv Ev]].
    destruct (apply_raising_raises _ _ _ _ Hv Ev) as [e' A].
    rewrite A. simpl.
    apply apply_raising_error in A as [x [_ Ex]].
    now rewrite (to_numeric_error _ _ Ex). }
  split.
  { intros col' A ds. rewrite A. cbv beta iota zeta delta [bind Ok].
    fold ds.
    destruct (existsb (fun nc : string * list value =>
                         mem_string (fst nc) (map fst ds)) data) eqn:X.
    - apply existsb_overlap in X. split; [ | reflexivity ].
      intros H. exfalso. destruct X as [n [H1 H2]]. now apply (H n).
    - split; [ reflexivity | ].
      intros H. apply existsb_overlap in H. rewrite H in X. discriminate. }
  intros e. destruct (apply_raising to_numeric col) as [ e0 | col' ] eqn:A.
  - simpl. intros H. injection H as <-.
    apply apply_raising_error in A as [x [_ Ex]].
    eapply to_numeric_error, Ex.
  - cbv beta iota zeta delta [bind]. destruct (existsb _ data).
    + intros H. now injection H as <-.
    + discriminate.
Qed.

Lemma coded_encoding_step_replaces_the_column_witness :
  encode_coded_step (fun _ => "1")
                    [ ("APOE4", [Str "0"; Str "1"; Str "one"]) ] "APOE4"
  = Raise ValueError.
Proof.
  apply (proj1 (coded_encoding_step_replaces_the_column
                  (fun _ => "1")
                  [ ("APOE4", [Str "0"; Str "1"; Str "one"]) ]
                  "APOE4" [Str "0"; Str "1"; Str "one"] eq_refl)).
  exists (Str "one"). split; [ simpl; auto | reflexivity ].
Defined.

(** ** The retirement year *)

Lemma digit_facts (c : ascii) (d : Z) :
  digit_of c = Some d ->
  is_space c = false /\ Ascii.eqb c "-" = false /\ Ascii.eqb c "+" = false
  /\ (0 <= d <= 9)%Z.
Proof.
  destruct c as [[] [] [] [] [] [] [] []]; simpl; intros H;
    try discriminate H; injection H as <-; repeat split; try reflexivity; lia.
Qed.

Lemma Qred_integer (z : Z) :
  Qred (inject_Z z * Qpower (10 # 1) (0 - Z.of_nat 0))%Q = inject_Z z.
Proof.
  change (Qred (Qmake (z * 1) 1) = Qmake z 1). rewrite Z.mul_1_r.
  apply Qcanon.Qred_identity. apply Z.gcd_1_r.
Qed.

(** Four digits scan as the number they spell. *)
Lemma parse_decimal_four_digits (c1 c2 c3 c4 : ascii) (d1 d2 d3 d4 : Z) :
  digit_of c1 = Some d1 -> digit_of c2 = Some d2 ->
  digit_of c3 = Some d3 -> digit_of c4 = Some d4 ->
  parse_decimal (String c1 (String c2 (String c3 (String c4 EmptyString))))
  = Some (inject_Z (1000 * d1 + 100 * d2 + 10 * d3 + d4)).
Proof.
  intros H1 H2 H3 H4.
  destruct (digit_facts _ _ H1) as [S1 [M1 [P1 _]]].
  unfold parse_decimal. cbn [skip_space]. rewrite S1.
  cbn [read_sign]. rewrite M1, P1.
  cbn [take_digits]. rewrite H1, H2, H3, H4.
  cbn [read_fraction read_exponent skip_space Nat.add Nat.eqb signed].
  rewrite Qred_integer. do 2 f_equal. lia.
Qed.

Lemma last4_append (p f : string) :
  String.length f = 4%nat -> last4 (p ++ f) = f.
Proof.
  intros Hf. unfold last4. rewrite string_length_append, Hf.
  replace (String.length p + 4 - 4)%nat with (String.length p) by lia.
  induction p as [ | c p IH ]; simpl.
  - destruct f as [ | a [ | b [ | c [ | d [ | e f ] ] ] ] ]; try discriminate Hf.
    reflexivity.
  - exact IH.
Qed.

Lemma last4_short (s : string) : (String.length s <= 4)%nat -> last4 s = s.
Proof.
  intros H. unfold last4.
  replace (String.length s - 4)%nat with 0%nat by lia.
  destruct s as [ | a [ | b [ | c [ | d [ | e f ] ] ] ] ]; simpl in *;
    try reflexivity; lia.
Qed.

Lemma to_numeric_coerce_not_str (v : value) : not_str (to_numeric_coerce v) = true.
Proof.
  unfold to_numeric_coerce. destruct (to_numeric v) as [ e | w ] eqn:E.
  - reflexivity.
  - eapply to_numeric_not_str, E.
Qed.

(** X17: the retirement-year transform of lines 168-170 and 233-234,
    [str(x)[-4:]] coerced with [errors='coerce'].  A string that ends in
    four digits, a date as [6/1/1990], gives the year those digits spell; a
    missing value gives a missing value; and the result is never a string,
    whatever the cell was. *)
Theorem retirement_year_of_a_date
  (render : number -> string) (p : string)
  (c1 c2 c3 c4 : ascii) (d1 d2 d3 d4 : Z)
  (H1 : digit_of c1 = Some d1) (H2 : digit_of c2 = Some d2)
  (H3 : digit_of c3 = Some d3) (H4 : digit_of c4 = Some d4) :
  retirement_year render
    (Str (p ++ String c1 (String c2 (String c3 (String c4 EmptyString)))))
  = Num (Fin (inject_Z (1000 * d1 + 100 * d2 + 10 * d3 + d4)))
  /\ retirement_year render NaN = NaN
  /\ retirement_year render PyNone = NaN
  /\ (forall x, not_str (retirement_year render x) = true).
Proof.
  split.
  { unfold retirement_year. cbn [py_str]. rewrite last4_append by reflexivity.
    unfold to_numeric_coerce, to_numeric.
    now rewrite (parse_decimal_four_digits _ _ _ _ _ _ _ _ H1 H2 H3 H4). }
  split; [ reflexivity | ]. split; [ reflexivity | ].
  intros x. apply to_numeric_coerce_not_str.
Qed.

Lemma retirement_year_of_a_date_witness :
  retirement_year (fun _ => "") (Str "6/1/1990") = Num (Fin (1990 # 1)).
Proof.
  exact (proj1 (retirement_year_of_a_date (fun _ => "") "6/1/"
                  "1" "9" "9" "0" 1 9 9 0 eq_refl eq_refl eq_refl eq_refl)).
Defined.

(** ** The script as a whole *)

Lemma to_frame_rectangular {K : Type} (t : indexed K) :
  rectangular (List.length (rows t)) (to_frame t).
Proof.
  unfold rectangular, to_frame. apply Forall_forall. intros nc H.
  apply in_map_iff in H as [jc [<- _]]. simpl. apply length_map.
Qed.

Lemma getcol_rectangular (n : nat) (c : string) (d : frame) (col : list value) :
  rectangular n d -> getcol c d = Ok col -> List.length col = n.
Proof.
  unfold rectangular. rewrite Forall_forall. intros H G.
  apply getcol_Ok_In in G. exact (H _ G).
Qed.

Lemma setcol_rectangular (n : nat) (c : string) (v : list value) (d : frame) :
  rectangular n d -> List.length v = n -> rectangular n (setcol c v d).
Proof.
  unfold rectangular. intros H Hv.
  induction d as [ | [m old] d IH ]; simpl.
  - now repeat constructor.
  - inversion H as [ | ? ? Hx Hd ]; subst.
    destruct (String.eqb m c); constructor; auto.
Qed.

Lemma select_columns_rectangular (n : nat) (cols : list string) (data d : frame) :
  rectangular n data -> select_columns cols data = Ok d -> rectangular n d.
Proof.
  intros H. revert d. induction cols as [ | c cs IH ]; intros d E.
  - injection E as <-. constructor.
  - apply select_columns_cons in E as [col [d' [G [E' ->]]]].
    constructor.
    + simpl. eapply getcol_rectangular; eassumption.
    + exact (IH d' E').
Qed.

Lemma clean_numerical_rectangular (n : nat) (data_meta : list meta_entry)
  (data data' : frame) :
  rectangular n data -> clean_numerical data_meta data = Ok data' ->
  rectangular n data'.
Proof.
  unfold clean_numerical. intros H E.
  match type of E with
  | bind ?m _ = _ => destruct m as [ e | d2 ] eqn:E2; [ discriminate | ]
  end.
  simpl in E.
  set (d1 := map (fun nc => (fst nc, map replace_blank (snd nc))) data) in *.
  assert (R1 : rectangular n d1).
  { unfold d1, rectangular. apply Forall_map. simpl.
    revert H. apply Forall_impl. intros nc Hnc. now rewrite length_map. }
  assert (R2 : rectangular n d2).
  { refine (for_each_invariant (rectangular n) _ _ _ d1 d2 R1 E2).
    intros s x s' Hs B.
    destruct (getcol x s) as [ e | col ] eqn:G; [ discriminate | ].
    simpl in B. injection B as <-.
    apply setcol_rectangular; [ exact Hs | ].
    rewrite length_map. eapply getcol_rectangular; eassumption. }
  refine (for_each_invariant (rectangular n) _ _ _ d2 data' R2 E).
  intros s x s' Hs B.
  destruct (getcol x s) as [ e | col ] eqn:G; [ discriminate | ].
  simpl in B.
  destruct (apply_raising to_numeric col) as [ e | col' ] eqn:A;
    [ discriminate | ].
  simpl in B. injection B as <-.
  apply setcol_rectangular; [ exact Hs | ].
  rewrite (proj1 (apply_raising_results _ _ _ A)).
  eapply getcol_rectangular; eassumption.
Qed.

Lemma retirement_step_rectangular (n : nat) (render : number -> string)
  (data data' : frame) :
  rectangular n data -> retirement_step render data = Ok data' ->
  rectangular n data'.
Proof.
  unfold retirement_step. intros H E.
  destruct (getcol "PTRTYR" data) as [ e | col ] eqn:G; [ discriminate | ].
  cbv beta iota zeta delta [bind Ok] in E.
  rewrite getcol_setcol, String.eqb_refl in E.
  cbv beta iota zeta delta [bind Ok] in E. injection E as <-.
  pose proof (getcol_rectangular _ _ _ _ H G) as Hl.
  apply setcol_rectangular; [ apply setcol_rectangular | ];
    rewrite ?length_map; auto.
Qed.

Lemma dummies_rectangular {A : Type}
  (eq_dec : forall a b : A, {a = b} + {a <> b}) (leb : A -> A -> bool)
  (render : A -> string) (c : string) (col : list (option A)) :
  rectangular (List.length col)
              (dummies_frame (get_dummies eq_dec leb render c col)).
Proof.
  unfold rectangular, dummies_frame, get_dummies. rewrite map_map.
  apply Forall_forall. intros nc H. apply in_map_iff in H as [l [<- _]].
  simpl. unfold indicator. now rewrite !length_map.
Qed.

Lemma rectangular_app (n : nat) (d1 d2 : frame) :
  rectangular n d1 -> rectangular n d2 -> rectangular n (d1 ++ d2).
Proof.
  unfold rectangular. intros H1 H2. apply Forall_app. auto.
Qed.

Lemma step_needs_column {B : Type} (c : string) (data : frame)
  (k : list value -> result B) (r : B) :
  (col <- getcol c data ;; k col) = Ok r ->
  exists col, getcol c data = Ok col.
Proof.
  destruct (getcol c data) as [ e | col ]; [ discriminate | eauto ].
Qed.

Lemma encode_text_step_rectangular (n : nat) (data data' : frame) (c : string) :
  rectangular n data -> encode_text_step data c = Ok data' ->
  rectangular n data'.
Proof.
  intros H E.
  destruct (step_needs_column _ _ _ _ E) as [col G].
  rewrite (encode_text_step_unfold _ _ _ G) in E.
  destruct (existsb _ data); [ discriminate | ]. injection E as <-.
  apply rectangular_app; [ now apply Forall_filter_keep | ].
  unfold encode_text.
  replace n with (List.length (map as_text (clean_and_group col))).
  - apply dummies_rectangular.
  - unfold clean_and_group, group_smaller_levels. rewrite !length_map.
    eapply getcol_rectangular; eassumption.
Qed.

Lemma encode_coded_step_rectangular (n : nat) (render : number -> string)
  (data data' : frame) (c : string) :
  rectangular n data -> encode_coded_step render data c = Ok data' ->
  rectangular n data'.
Proof.
  intros H E.
  destruct (step_needs_column _ _ _ _ E) as [col G].
  rewrite (encode_coded_step_unfold _ _ _ _ G) in E.
  destruct (apply_raising to_numeric col) as [ e | col' ] eqn:A;
    [ discriminate | ].
  cbv beta iota zeta delta [bind] in E.
  destruct (existsb _ data); [ discriminate | ]. injection E as <-.
  apply rectangular_app; [ now apply Forall_filter_keep | ].
  replace n with (List.length (map as_number col')).
  - apply dummies_rectangular.
  - rewrite length_map, (proj1 (apply_raising_results _ _ _ A)).
    eapply getcol_rectangular; eassumption.
Qed.

Lemma encode_categorical_rectangular (n : nat) (render : number -> string)
  (data_meta : list meta_entry) (data data' : frame) :
  rectangular n data -> encode_categorical render data_meta data = Ok data' ->
  rectangular n data'.
Proof.
  unfold encode_categorical. intros H E.
  destruct (for_each encode_text_step (text_cat_cols data_meta) data)
    as [ e | d1 ] eqn:E1; [ discriminate | ].
  simpl in E.
  assert (R1 : rectangular n d1).
  { refine (for_each_invariant (rectangular n) _ _ _ data d1 H E1).
    intros s x s' Hs B. eapply encode_text_step_rectangular; eassumption. }
  refine (for_each_invariant (rectangular n) _ _ _ d1 data' R1 E).
  intros s x s' Hs B. eapply encode_coded_step_rectangular; eassumption.
Qed.

(** X18: when the script runs through, both tables it writes have the index
    of TADPOLE_D1_D2.csv, entry for entry, and every column of both has
    exactly one cell per row of that file -- no stage drops, doubles or
    reorders a row. *)
Theorem written_tables_keep_the_primary_rows
  (render : number -> string) (src : sources) (meta : list meta_entry)
  (out : artifacts)
  (E : prepare render src meta = Ok out) :
  out_index out = map (fun r => (RID r, VISCODE r)) (tadpole src)
  /\ rectangular (List.length (tadpole src)) (data_all_no_encode out)
  /\ rectangular (List.length (tadpole src)) (data_all out).
Proof.
  unfold prepare in E.
  destruct (import_and_join src) as [ e | joined ] eqn:E0; [ discriminate | ].
  cbv beta iota zeta delta [bind] in E.
  destruct (select_columns _ (to_frame joined)) as [ e | d1 ] eqn:E1;
    [ discriminate | ].
  destruct (clean_numerical (kept_meta meta) d1) as [ e | d2 ] eqn:E2;
    [ discriminate | ].
  destruct (retirement_step render d2) as [ e | viz ] eqn:E3;
    [ discriminate | ].
  destruct (encode_categorical render (kept_meta meta) d2) as [ e | d3 ] eqn:E4;
    [ discriminate | ].
  destruct (retirement_step render d3) as [ e | d4 ] eqn:E5;
    [ discriminate | ].
  injection E as <-. simpl.
  pose proof (import_and_join_rows src joined E0) as Hk.
  assert (Hn : List.length (rows joined) = List.length (tadpole src)).
  { rewrite <- (length_map fst), Hk. apply length_map. }
  pose proof (to_frame_rectangular joined) as R0. rewrite Hn in R0.
  pose proof (select_columns_rectangular _ _ _ _ R0 E1) as R1.
  pose proof (clean_numerical_rectangular _ _ _ _ R1 E2) as R2.
  split; [ exact Hk | ].
  split; [ eapply retirement_step_rectangular; eassumption | ].
  eapply retirement_step_rectangular; [ | exact E5 ].
  eapply encode_categorical_rectangular; eassumption.
Qed.

Lemma written_tables_keep_the_primary_rows_witness :
  let src := mk_sources
       [ "ABETA_UPENNBIOMK9_04_19_17"; "TAU_UPENNBIOMK9_04_19_17";
         "PTAU_UPENNBIOMK9_04_19_17"; "PTGENDER" ]
       [ mk_visit 1 "bl" [Str "<200"; Str "81"; Str " "; Str "Male"];
         mk_visit 2 "bl" [Str "741.5"; NaN; Str ">120"; Str "Female"] ]
       [] []
       ["PTRTYR"] [ mk_demo 1 (Some "2005-08-18") [Str "6/1/1990"] ]
       ["FHQMOM"] [ mk_visit 2 "sc" [Str "1"] ]
       ["TOMM40_A1"] [] in
  let meta := [ mk_meta "ABETA_UPENNBIOMK9_04_19_17" 1 1 0 "object";
                mk_meta "TAU_UPENNBIOMK9_04_19_17" 1 1 0 "object";
                mk_meta "PTAU_UPENNBIOMK9_04_19_17" 1 1 0 "object";
                mk_meta "PTGENDER" 1 0 1 "object";
                mk_meta "PTRTYR" 1 0 0 "object";
                mk_meta "FHQMOM" 0 0 1 "object" ] in
  let out := mk_artifacts
       [ (1%Z, "bl"); (2%Z, "bl") ]
       [ ("ABETA_UPENNBIOMK9_04_19_17",
          [Num (Fin (200 # 1)); Num (Fin (1483 # 2))]);
         ("TAU_UPENNBIOMK9_04_19_17", [Num (Fin (81 # 1)); NaN]);
         ("PTAU_UPENNBIOMK9_04_19_17", [NaN; Num (Fin (120 # 1))]);
         ("PTGENDER", [Str "Male"; Str "Female"]);
         ("PTRTYR", [Num (Fin (1990 # 1)); NaN]) ]
       [ ("ABETA_UPENNBIOMK9_04_19_17",
          [Num (Fin (200 # 1)); Num (Fin (1483 # 2))]);
         ("TAU_UPENNBIOMK9_04_19_17", [Num (Fin (81 # 1)); NaN]);
         ("PTAU_UPENNBIOMK9_04_19_17", [NaN; Num (Fin (120 # 1))]);
         ("PTRTYR", [Num (Fin (1990 # 1)); NaN]);
         ("PTGENDER_male", [Num (Fin (1 # 1)); Num (Fin (0 # 1))]) ] in
  prepare (fun _ => "") src meta = Ok out
  /\ rectangular (List.length (tadpole src)) (data_all out).
Proof.
  intros src meta out.
  assert (E : prepare (fun _ => "") src meta = Ok out)
    by (vm_compute; reflexivity).
  split; [ exact E | ].
  apply (written_tables_keep_the_primary_rows _ _ _ _ E).
Defined.

(** ** A categorical retirement year *)

Lemma underscore_not_in_PTRTYR (c x : string) : (c ++ "_" ++ x)%string <> "PTRTYR".
Proof.
  intros H.
  assert (A : all_chars (fun a => negb (Ascii.eqb a "_")) (c ++ "_" ++ x)
              = true) by (rewrite H; reflexivity).
  rewrite all_chars_app in A. simpl in A.
  now rewrite andb_false_r in A.
Qed.

Lemma dummies_names_form {A : Type}
  (eq_dec : forall a b : A, {a = b} + {a <> b})
  (leb : A -> A -> bool) (render : A -> string) (c : string)
  (col : list (option A)) (n : string) :
  In n (map fst (dummies_frame (get_dummies eq_dec leb render c col))) ->
  exists x, n = (c ++ "_" ++ x)%string.
Proof.
  unfold dummies_frame, get_dummies. rewrite !map_map. simpl.
  intros H. apply in_map_iff in H as [l [<- _]]. eauto.
Qed.

(** The names after a pass of either loop: those that were there, without
    the source column, and indicator names. *)
Lemma encode_text_step_names (data data' : frame) (c n : string) :
  encode_text_step data c = Ok data' -> In n (map fst data') ->
  (In n (map fst data) /\ n <> c) \/ exists x, n = (c ++ "_" ++ x)%string.
Proof.
  intros E H.
  destruct (step_needs_column _ _ _ _ E) as [col G].
  rewrite (encode_text_step_unfold _ _ _ G) in E.
  destruct (existsb _ data); [ discriminate | ]. injection E as <-.
  rewrite map_app in H. apply in_app_or in H as [H | H].
  - left. apply in_map_iff in H as [[m v] [Em H]]. simpl in Em. subst m.
    apply filter_In in H as [H Hne]. simpl in Hne.
    split; [ now apply (in_map fst) in H | ].
    intros ->. now rewrite String.eqb_refl in Hne.
  - right. unfold encode_text in H. eapply dummies_names_form, H.
Qed.

Lemma encode_coded_step_names (render : number -> string)
  (data data' : frame) (c n : string) :
  encode_coded_step render data c = Ok data' -> In n (map fst data') ->
  (In n (map fst data) /\ n <> c) \/ exists x, n = (c ++ "_" ++ x)%string.
Proof.
  intros E H.
  destruct (step_needs_column _ _ _ _ E) as [col G].
  rewrite (encode_coded_step_unfold _ _ _ _ G) in E.
  destruct (apply_raising to_numeric col) as [ e | col' ]; [ discriminate | ].
  cbv beta iota zeta delta [bind] in E.
  destruct (existsb _ data); [ discriminate | ]. injection E as <-.
  rewrite map_app in H. apply in_app_or in H as [H | H].
  - left. apply in_map_iff in H as [[m v] [Em H]]. simpl in Em. subst m.
    apply filter_In in H as [H Hne]. simpl in Hne.
    split; [ now apply (in_map fst) in H | ].
    intros ->. now rewrite String.eqb_refl in Hne.
  - right. eapply dummies_names_form, H.
Qed.

(** A loop whose passes each keep a column away once it is gone, and of
    which the pass for [c] takes the column away, ends without it. *)
Lemma loop_removes_column (step : frame -> string -> result frame)
  (P : frame -> Prop) (c : string) (cs : list string) :
  (forall d x d', P d -> step d x = Ok d' -> P d') ->
  (forall d d', step d c = Ok d' -> P d') ->
  In c cs ->
  forall d d', for_each step cs d = Ok d' -> P d'.
Proof.
  intros Hkeep Hmake. induction cs as [ | x cs IH ]; intros Hin d d' E.
  - destruct Hin.
  - simpl in E. destruct (step d x) as [ e | d1 ] eqn:S; [ discriminate | ].
    simpl in E. destruct (string_dec x c) as [-> | N].
    + refine (for_each_invariant P step cs Hkeep d1 d' _ E).
      eapply Hmake, S.
    + destruct Hin as [Hx | Hin]; [ contradiction | ]. eapply IH; eassumption.
Qed.

Lemma categorical_retirement_year_absent
  (render : number -> string) (data_meta : list meta_entry)
  (data data' : frame)
  (Hcat : In "PTRTYR" (text_cat_cols data_meta ++ coded_cat_cols data_meta))
  (E : encode_categorical render data_meta data = Ok data') :
  ~ In "PTRTYR" (map fst data').
Proof.
  set (P := fun d : frame => ~ In "PTRTYR" (map fst d)).
  assert (Kt : forall d x d', P d -> encode_text_step d x = Ok d' -> P d').
  { intros d x d' Hd S Hin.
    destruct (encode_text_step_names _ _ _ _ S Hin) as [[H _] | [y H]].
    - now apply Hd.
    - symmetry in H. now apply underscore_not_in_PTRTYR in H. }
  assert (Kc : forall d x d', P d -> encode_coded_step render d x = Ok d' -> P d').
  { intros d x d' Hd S Hin.
    destruct (encode_coded_step_names _ _ _ _ _ S Hin) as [[H _] | [y H]].
    - now apply Hd.
    - symmetry in H. now apply underscore_not_in_PTRTYR in H. }
  assert (Mt : forall d d', encode_text_step d "PTRTYR" = Ok d' -> P d').
  { intros d d' S Hin.
    destruct (encode_text_step_names _ _ _ _ S Hin) as [[_ H] | [y H]].
    - now apply H.
    - symmetry in H. now apply underscore_not_in_PTRTYR in H. }
  assert (Mc : forall d d', encode_coded_step render d "PTRTYR" = Ok d' -> P d').
  { intros d d' S Hin.
    destruct (encode_coded_step_names _ _ _ _ _ S Hin) as [[_ H] | [y H]].
    - now apply H.
    - symmetry in H. now apply underscore_not_in_PTRTYR in H. }
  change (P data').
  unfold encode_categorical in E.
  destruct (for_each encode_text_step (text_cat_cols data_meta) data)
    as [ e | d1 ] eqn:E1; [ discriminate | ].
  simpl in E. apply in_app_or in Hcat as [Hcat | Hcat].
  - refine (for_each_invariant P _ _ Kc d1 data' _ E).
    exact (loop_removes_column _ P _ _ Kt Mt Hcat _ _ E1).
  - exact (loop_removes_column _ P _ _ Kc Mc Hcat _ _ E).
Qed.

(** X19: when the registry flags [PTRTYR] as categorical, its loop drops the
    column (line 208 or 225) and no later pass brings the name back, so the
    table that leaves the loops has no [PTRTYR] and line 233 raises
    [KeyError]: the script does not write data_all.csv. *)
Theorem categorical_retirement_year_aborts
  (render : number -> string) (data_meta : list meta_entry)
  (data data' : frame)
  (Hcat : In "PTRTYR" (text_cat_cols data_meta ++ coded_cat_cols data_meta))
  (E : encode_categorical render data_meta data = Ok data') :
  ~ In "PTRTYR" (map fst data')
  /\ retirement_step render data' = Raise KeyError.
Proof.
  pose proof (categorical_retirement_year_absent render data_meta data data'
                Hcat E) as Hp.
  split; [ exact Hp | ].
  unfold retirement_step.
  rewrite (getcol_absent _ _ Hp). reflexivity.
Qed.

Lemma categorical_retirement_year_aborts_witness :
  retirement_step (fun _ => "")
    [ ("AGE", [Str "70"; Str "64"]);
      ("PTRTYR_other", [Num (Fin 0); Num (Fin 1)]) ]
  = Raise KeyError.
Proof.
  refine (proj2 (categorical_retirement_year_aborts (fun _ => "")
                   [ mk_meta "PTRTYR" 1 0 1 "object" ]
                   [ ("AGE", [Str "70"; Str "64"]);
                     ("PTRTYR", [Str "6/1/1990"; NaN]) ]
                   _ _ _)).
  - simpl. auto.
  - vm_compute. reflexivity.
Defined.

(** ** The registry *)

Lemma filter_split_Permutation {X : Type} (p q : X -> bool) (l : list X) :
  Permutation (filter (fun x => p x && q x) l
               ++ filter (fun x => p x && negb (q x)) l)
              (filter p l).
Proof.
  induction l as [ | x l IH ]; simpl.
  - constructor.
  - destruct (p x), (q x); simpl.
    + now constructor.
    + apply Permutation_sym. eapply perm_trans.
      * apply perm_skip, Permutation_sym, IH.
      * apply Permutation_middle.
    + exact IH.
    + exact IH.
Qed.

(** X20: the registry entries flagged categorical are shared out between the
    two loops of lines 189-225: each goes to the text loop or to the
    numeric-coded loop, by its declared type, and to one of them only; an
    entry not flagged categorical goes to neither. *)
Theorem categorical_columns_go_to_one_loop (data_meta : list meta_entry) :
  Permutation (text_cat_cols data_meta ++ coded_cat_cols data_meta)
              (map column_name
                   (filter (fun m => Z.eqb (categorical m) 1) data_meta))
  /\ List.length (text_cat_cols data_meta)
     + List.length (coded_cat_cols data_meta)
     = List.length (filter (fun m => Z.eqb (categorical m) 1) data_meta).
Proof.
  assert (H : Permutation
                (text_cat_cols data_meta ++ coded_cat_cols data_meta)
                (map column_name
                     (filter (fun m => Z.eqb (categorical m) 1) data_meta))).
  { unfold text_cat_cols, coded_cat_cols. rewrite <- map_app.
    apply Permutation_map.
    apply (filter_split_Permutation
             (fun m => Z.eqb (categorical m) 1)
             (fun m => String.eqb (data_type m) "object")). }
  split; [ exact H | ].
  apply Permutation_length in H. now rewrite length_app, length_map in H.
Qed.

(** ** The two written tables *)

Lemma retirement_step_result (render : number -> string) (data data' : frame) :
  retirement_step render data = Ok data' ->
  exists col,
    getcol "PTRTYR" data = Ok col
    /\ data' = setcol "PTRTYR" (map (retirement_year render) col)
                      (setcol "PTRTYR"
                              (map (fun x => Str (last4 (py_str render x))) col)
                              data).
Proof.
  unfold retirement_step. intros E.
  destruct (getcol "PTRTYR" data) as [ e | col ] eqn:G; [ discriminate | ].
  cbv beta iota zeta delta [bind Ok] in E.
  rewrite getcol_setcol, String.eqb_refl in E.
  cbv beta iota zeta delta [bind Ok] in E. injection E as <-.
  exists col. split; [ reflexivity | ]. now rewrite map_map.
Qed.

Lemma retirement_step_names (render : number -> string) (data data' : frame) :
  retirement_step render data = Ok data' -> map fst data' = map fst data.
Proof.
  intros E. apply retirement_step_result in E as [col [G ->]].
  rewrite setcol_names; [ now apply (setcol_names_present _ _ _ col) | ].
  rewrite (setcol_names_present _ _ _ col G). eapply getcol_Ok_name, G.
Qed.

Lemma retirement_step_column (render : number -> string) (data data' : frame) :
  retirement_step render data = Ok data' ->
  exists col,
    getcol "PTRTYR" data = Ok col
    /\ getcol "PTRTYR" data' = Ok (map (retirement_year render) col).
Proof.
  intros E. apply retirement_step_result in E as [col [G ->]].
  exists col. split; [ exact G | ]. now rewrite getcol_setcol, String.eqb_refl.
Qed.

(** X21: when the script runs through, data_all_no_encode.csv has exactly
    the columns of the registry entries with [keep == 1], in the order of
    the registry: the numerical cleaning and the retirement-year transform
    add and drop no column. *)
Theorem unencoded_table_has_the_kept_columns
  (render : number -> string) (src : sources) (meta : list meta_entry)
  (out : artifacts)
  (E : prepare render src meta = Ok out) :
  map fst (data_all_no_encode out) = map column_name (kept_meta meta).
Proof.
  unfold prepare in E.
  destruct (import_and_join src) as [ e | joined ]; [ discriminate | ].
  cbv beta iota zeta delta [bind] in E.
  destruct (select_columns _ (to_frame joined)) as [ e | d1 ] eqn:E1;
    [ discriminate | ].
  destruct (clean_numerical (kept_meta meta) d1) as [ e | d2 ] eqn:E2;
    [ discriminate | ].
  destruct (retirement_step render d2) as [ e | viz ] eqn:E3;
    [ discriminate | ].
  destruct (encode_categorical render (kept_meta meta) d2) as [ e | d3 ];
    [ discriminate | ].
  destruct (retirement_step render d3) as [ e | d4 ]; [ discriminate | ].
  injection E as <-. simpl.
  rewrite (retirement_step_names _ _ _ E3), (clean_numerical_names _ _ _ E2).
  apply (metadata_filter_names _ _ _ E1).
Qed.

Lemma unencoded_table_has_the_kept_columns_witness :
  let src := mk_sources
       [ "ABETA_UPENNBIOMK9_04_19_17"; "TAU_UPENNBIOMK9_04_19_17";
         "PTAU_UPENNBIOMK9_04_19_17"; "PTGENDER"; "AGE" ]
       [ mk_visit 1 "bl" [Str "<200"; Str "81"; Str " "; Str "Male"; Str "70"] ]
       [] []
       ["PTRTYR"] [ mk_demo 1 (Some "2005-08-18") [Str "6/1/1990"] ]
       ["FHQMOM"] []
       ["TOMM40_A1"] [] in
  let meta := [ mk_meta "PTRTYR" 1 0 0 "object";
                mk_meta "AGE" 0 1 0 "object";
                mk_meta "ABETA_UPENNBIOMK9_04_19_17" 1 1 0 "object";
                mk_meta "TAU_UPENNBIOMK9_04_19_17" 1 1 0 "object";
                mk_meta "PTAU_UPENNBIOMK9_04_19_17" 1 1 0 "object";
                mk_meta "PTGENDER" 1 0 1 "object" ] in
  exists out,
    prepare (fun _ => "") src meta = Ok out
    /\ map fst (data_all_no_encode out)
       = [ "PTRTYR"; "ABETA_UPENNBIOMK9_04_19_17"; "TAU_UPENNBIOMK9_04_19_17";
           "PTAU_UPENNBIOMK9_04_19_17"; "PTGENDER" ].
Proof.
  intros src meta.
  destruct (prepare (fun _ => "") src meta) as [ e | out ] eqn:E.
  - vm_compute in E. discriminate E.
  - exists out. split; [ reflexivity | ].
    exact (unencoded_table_has_the_kept_columns _ _ _ _ E).
Defined.

Lemma for_each_invariant_in {A S : Type} (P : S -> Prop)
  (body : S -> A -> result S) (xs : list A) :
  (forall s x s', In x xs -> P s -> body s x = Ok s' -> P s') ->
  forall s s', P s -> for_each body xs s = Ok s' -> P s'.
Proof.
  induction xs as [ | x xs IH ]; simpl; intros Hb s s' Hs E.
  - now injection E as <-.
  - destruct (body s x) as [ e | s1 ] eqn:B; [ discriminate | ].
    simpl in E. eapply IH; [ | | exact E ].
    + intros s0 y s0' Hy. apply Hb. now right.
    + eapply Hb; [ now left | exact Hs | exact B ].
Qed.

(** Dropping the column [c] and appending indicator columns leaves every
    other column where a lookup finds it. *)
Lemma getcol_after_drop (c c' : string) (data ds : frame) (col' : list value) :
  c' <> c -> getcol c' data = Ok col' ->
  getcol c' (filter (fun nc => negb (String.eqb (fst nc) c)) data ++ ds)
  = Ok col'.
Proof.
  intros Hne. induction data as [ | [n v] data IH ]; simpl; [ discriminate | ].
  destruct (String.eqb_spec n c') as [-> | N].
  - destruct (String.eqb_spec c' c) as [ | _ ]; [ contradiction | ].
    simpl. now rewrite String.eqb_refl.
  - destruct (String.eqb_spec n c) as [-> | _]; simpl.
    + exact IH.
    + destruct (String.eqb_spec n c') as [ | _ ]; [ contradiction | ].
      exact IH.
Qed.

Lemma encode_text_step_other (data data' : frame) (c c' : string)
  (col' : list value) :
  c' <> c -> getcol c' data = Ok col' ->
  encode_text_step data c = Ok data' -> getcol c' data' = Ok col'.
Proof.
  intros Hne G' E.
  destruct (step_needs_column _ _ _ _ E) as [col G].
  rewrite (encode_text_step_unfold _ _ _ G) in E.
  destruct (existsb _ data); [ discriminate | ]. injection E as <-.
  now apply getcol_after_drop.
Qed.

Lemma encode_coded_step_other (render : number -> string)
  (data data' : frame) (c c' : string) (col' : list value) :
  c' <> c -> getcol c' data = Ok col' ->
  encode_coded_step render data c = Ok data' -> getcol c' data' = Ok col'.
Proof.
  intros Hne G' E.
  destruct (step_needs_column _ _ _ _ E) as [col G].
  rewrite (encode_coded_step_unfold _ _ _ _ G) in E.
  destruct (apply_raising to_numeric col) as [ e | colx ]; [ discriminate | ].
  cbv beta iota zeta delta [bind] in E.
  destruct (existsb _ data); [ discriminate | ]. injection E as <-.
  now apply getcol_after_drop.
Qed.

(** The loops leave alone a column that the registry does not flag as
    categorical. *)
Lemma encode_categorical_other (render : number -> string)
  (data_meta : list meta_entry) (data data' : frame) (c : string)
  (col : list value) :
  ~ In c (text_cat_cols data_meta ++ coded_cat_cols data_meta) ->
  getcol c data = Ok col ->
  encode_categorical render data_meta data = Ok data' ->
  getcol c data' = Ok col.
Proof.
  intros Hnot G E. unfold encode_categorical in E.
  destruct (for_each encode_text_step (text_cat_cols data_meta) data)
    as [ e | d1 ] eqn:E1; [ discriminate | ].
  simpl in E.
  assert (G1 : getcol c d1 = Ok col).
  { refine (for_each_invariant_in (fun d => getcol c d = Ok col)
              _ _ _ data d1 G E1).
    intros s x s' Hx Hs B. eapply encode_text_step_other; [ | exact Hs | exact B ].
    intros ->. apply Hnot, in_or_app. now left. }
  refine (for_each_invariant_in (fun d => getcol c d = Ok col)
            _ _ _ d1 data' G1 E).
  intros s x s' Hx Hs B. eapply encode_coded_step_other; [ | exact Hs | exact B ].
  intros ->. apply Hnot, in_or_app. now right.
Qed.

(** X22: when the script runs through, the column [PTRTYR] is the same in
    both written tables: in each, cell for cell, the retirement year of the
    cell that the numerical cleaning left, and never a string.  (The
    registry then does not flag [PTRTYR] as categorical.) *)
Theorem retirement_year_same_in_both_tables
  (render : number -> string) (src : sources) (meta : list meta_entry)
  (out : artifacts)
  (E : prepare render src meta = Ok out) :
  exists col,
    getcol "PTRTYR" (data_all_no_encode out) = Ok col
    /\ getcol "PTRTYR" (data_all out) = Ok col
    /\ Forall (fun v => not_str v = true) col
    /\ ~ In "PTRTYR" (text_cat_cols (kept_meta meta)
                      ++ coded_cat_cols (kept_meta meta)).
Proof.
  unfold prepare in E.
  destruct (import_and_join src) as [ e | joined ]; [ discriminate | ].
  cbv beta iota zeta delta [bind] in E.
  destruct (select_columns _ (to_frame joined)) as [ e | d1 ];
    [ discriminate | ].
  destruct (clean_numerical (kept_meta meta) d1) as [ e | d2 ];
    [ discriminate | ].
  destruct (retirement_step render d2) as [ e | viz ] eqn:E3;
    [ discriminate | ].
  destruct (encode_categorical render (kept_meta meta) d2) as [ e | d3 ] eqn:E4;
    [ discriminate | ].
  destruct (retirement_step render d3) as [ e | d4 ] eqn:E5;
    [ discriminate | ].
  injection E as <-. simpl.
  assert (Hnot : ~ In "PTRTYR" (text_cat_cols (kept_meta meta)
                                ++ coded_cat_cols (kept_meta meta))).
  { intros Hin.
    pose proof (categorical_retirement_year_absent render _ _ _ Hin E4) as K.
    unfold retirement_step in E5.
    rewrite (getcol_absent _ _ K) in E5. discriminate. }
  destruct (retirement_step_column _ _ _ E3) as [col [G2 Gv]].
  destruct (retirement_step_column _ _ _ E5) as [col3 [G3 Gd]].
  rewrite (encode_categorical_other _ _ _ _ _ _ Hnot G2 E4) in G3.
  injection G3 as <-.
  exists (map (retirement_year render) col).
  split; [ exact Gv | ]. split; [ exact Gd | ]. split; [ | exact Hnot ].
  apply Forall_forall. intros v Hv. apply in_map_iff in Hv as [x [<- _]].
  unfold retirement_year. apply to_numeric_coerce_not_str.
Qed.

Lemma retirement_year_same_in_both_tables_witness :
  let src := mk_sources
       [ "ABETA_UPENNBIOMK9_04_19_17"; "TAU_UPENNBIOMK9_04_19_17";
         "PTAU_UPENNBIOMK9_04_19_17"; "PTGENDER" ]
       [ mk_visit 1 "bl" [Str "<200"; Str "81"; Str " "; Str "Male"];
         mk_visit 2 "bl" [Str "300"; Str "90"; Str "20"; Str "Female"] ]
       [] []
       ["PTRTYR"] [ mk_demo 1 (Some "2005-08-18") [Str "6/1/1990"] ]
       ["FHQMOM"] []
       ["TOMM40_A1"] [] in
  let meta := [ mk_meta "PTRTYR" 1 0 0 "object";
                mk_meta "ABETA_UPENNBIOMK9_04_19_17" 1 1 0 "object";
                mk_meta "TAU_UPENNBIOMK9_04_19_17" 1 1 0 "object";
                mk_meta "PTAU_UPENNBIOMK9_04_19_17" 1 1 0 "object";
                mk_meta "PTGENDER" 1 0 1 "object" ] in
  exists out,
    prepare (fun _ => "") src meta = Ok out
    /\ exists col,
         getcol "PTRTYR" (data_all_no_encode out) = Ok col
         /\ getcol "PTRTYR" (data_all out) = Ok col
         /\ Forall (fun v => not_str v = true) col
         /\ ~ In "PTRTYR" (text_cat_cols (kept_meta meta)
                           ++ coded_cat_cols (kept_meta meta)).
Proof.
  intros src meta.
  destruct (prepare (fun _ => "") src meta) as [ e | out ] eqn:E.
  - vm_compute in E. discriminate E.
  - exists out. split; [ reflexivity | ].
    exact (retirement_year_same_in_both_tables _ _ _ _ E).
Defined.
